(** * Assume-bundle queries (llvm/lib/Analysis/AssumeBundleQueries.cpp)

    A shallow embedding of the query layer over the operand bundles of
    [llvm.assume] calls, and the properties stated about it.

    Conventions of the embedding:
    - C++ [assert]/[cast<>]/[llvm_unreachable] failures and out-of-bounds
      reads are the [Fatal] outcome of the [result] monad;
    - [uint32_t]/[unsigned] quantities are [Z] with the wrap-around modulo
      [2^32] written where the source computes on them;
    - pointers to IR objects are the objects' identities: values compare
      structurally (constants are uniqued in LLVM), instructions carry their
      address, a nullable pointer is an [option]. *)

From stdpp Require Import gmap strings list fin_maps.
From Stdlib Require Import ZArith Permutation.

Local Open Scope Z_scope.

(** ** Fatal errors *)

Inductive result (A : Type) : Type :=
  | Ok (a : A)
  | Fatal.
Arguments Ok {A} a.
Arguments Fatal {A}.

Definition result_bind {A B} (f : A → result B) (r : result A) : result B :=
  match r with
  | Ok a => f a
  | Fatal => Fatal
  end.

#[global] Instance result_ret : MRet result := @Ok.
#[global] Instance result_mbind : MBind result := @result_bind.
#[global] Instance result_fmap : FMap result :=
  λ A B f r, match r with Ok a => Ok (f a) | Fatal => Fatal end.

(** [assert(b)] *)
Definition assert (b : bool) : result unit :=
  if b then Ok tt else Fatal.

(** ** The IR, as far as the queries look at it *)

Module IR.

(** A [Value *].  [ConstantInt]s are uniqued per type and value, every other
    value (argument, instruction, function, ...) is named by its identity. *)
Inductive Value : Type :=
  | ConstantInt (bits : N) (val : Z)
  | OtherValue (id : nat).

#[global] Instance Value_eq_dec : EqDecision Value.
Proof. solve_decision. Defined.

#[global] Instance Value_countable : Countable Value.
Proof.
  refine (inj_countable'
    (λ v, match v with
          | ConstantInt b z => inl (b, z)
          | OtherValue i => inr i
          end)
    (λ s, match s with
          | inl (b, z) => ConstantInt b z
          | inr i => OtherValue i
          end) _).
  by intros [].
Defined.

(** [cast<ConstantInt>(V)->getZExtValue()]: the cast asserts that [V] is a
    [ConstantInt], [getZExtValue] that the value fits 64 bits. *)
Definition getZExtValue (V : Value) : result Z :=
  match V with
  | ConstantInt _ z => if bool_decide (0 ≤ z < 2 ^ 64) then Ok z else Fatal
  | OtherValue _ => Fatal
  end.

(** [CallBase::BundleOpInfo]: the tag's key and the range [Begin, End) of the
    owning call's operand list. *)
Record BundleOpInfo : Type := {
  BOI_Tag : string;
  BOI_Begin : Z;
  BOI_End : Z;
}.

#[global] Instance BundleOpInfo_eq_dec : EqDecision BundleOpInfo.
Proof. solve_decision. Defined.

Inductive IntrinsicID : Type :=
  | Intrinsic_assume
  | Intrinsic_other (n : nat).

#[global] Instance IntrinsicID_eq_dec : EqDecision IntrinsicID.
Proof. solve_decision. Defined.

(** An instruction (a [User]): its address, the intrinsic it calls if it is
    a call to one, its operand list and its bundle table.  In a call the
    operands are the call arguments, then the bundle operands, then the
    callee; [llvm.assume] has the single argument operand 0, its
    condition. *)
Record Instruction : Type := {
  inst_addr : nat;
  inst_intrinsic : option IntrinsicID;
  inst_operands : list Value;
  bundle_op_infos : list BundleOpInfo;
}.

#[global] Instance Instruction_eq_dec : EqDecision Instruction.
Proof. solve_decision. Defined.

Definition isAssume (I : Instruction) : bool :=
  bool_decide (inst_intrinsic I = Some Intrinsic_assume).

Definition getArgOperand (I : Instruction) (i : nat) : option Value :=
  inst_operands I !! i.

(** A [Use]: an operand position of a user. *)
Record Use : Type := {
  U_user : Instruction;
  U_operandNo : nat;
}.

(** [U->get()] *)
Definition Use_get (U : Use) : option Value :=
  inst_operands (U_user U) !! U_operandNo U.

(** Modelled from the spec: [CallBase::getBundleOpInfoForOperand] is not
    among the sources; it "locates the bundle owning a given operand position
    within the assumption's flattened operand list", and an operand position
    owned by no bundle is a fatal contract error. *)
Definition getBundleOpInfoForOperand (I : Instruction) (OpIdx : nat)
    : result BundleOpInfo :=
  match
    List.find (λ BOI, bool_decide (BOI_Begin BOI ≤ Z.of_nat OpIdx < BOI_End BOI))
              (bundle_op_infos I)
  with
  | Some BOI => Ok BOI
  | None => Fatal
  end.

(** Layout of the operands and of the bundle table of an [llvm.assume] call
    built from its condition and [(tag, inputs)] bundles. *)
Fixpoint layoutBundles (start : Z) (bs : list (string * list Value))
    : list BundleOpInfo :=
  match bs with
  | [] => []
  | (tag, ins) :: bs' =>
      {| BOI_Tag := tag; BOI_Begin := start;
         BOI_End := start + Z.of_nat (length ins) |}
      :: layoutBundles (start + Z.of_nat (length ins)) bs'
  end.

Definition mkAssume (addr : nat) (cond callee : Value)
    (bs : list (string * list Value)) : Instruction :=
  {| inst_addr := addr;
     inst_intrinsic := Some Intrinsic_assume;
     inst_operands := cond :: concat (bs.*2) ++ [callee];
     bundle_op_infos := layoutBundles 1 bs |}.

End IR.
Import IR.

(** ** Declarations of AssumeBundleQueries.h and of the attribute registry *)

(** Modelled from the spec: the enumeration [AssumeBundleArg] is declared in
    a header that is not among the sources; slot 0 of a bundle is "WasOn",
    slot 1 is "Argument". *)
Definition ABA_WasOn : Z := 0.
Definition ABA_Argument : Z := 1.

(** Modelled from the spec: [IgnoreBundleTag] is declared in the same header;
    it is the distinguished "ignore" tag. *)
Definition IgnoreBundleTag : string := "ignore".

(** Modelled from the spec: [AssumptionCache::ExprResultIdx] is the reserved
    sentinel index meaning "not a real bundle slot"; the largest [unsigned]. *)
Definition ExprResultIdx : Z := 2 ^ 32 - 1.

(** The attribute-kind registry the queries consume ([Attribute::AttrKind]
    and the static functions of [Attribute]); it is external to the file. *)
Class AttributeRegistry : Type := {
  AttrKind : Type;
  AttrKind_eq_dec :: EqDecision AttrKind;
  AttrKind_countable :: Countable AttrKind;
  Attribute_None : AttrKind;
  getAttrKindFromName : string → AttrKind;
  isExistingAttribute : string → bool;
  doesAttrKindHaveArgument : AttrKind → bool;
}.

(** [struct MinMax { unsigned Min; unsigned Max; }] *)
Record MinMax : Type := { Min : Z; Max : Z }.

#[global] Instance MinMax_eq_dec : EqDecision MinMax.
Proof. solve_decision. Defined.

(** [AssumptionCache::ResultElem]: a weak handle on the assume (null once
    the instruction is gone) and the index of the bundle. *)
Record ResultElem : Type := {
  RE_Assume : option Instruction;
  RE_Index : Z;
}.

Section Queries.
Context `{!AttributeRegistry}.

(** Modelled from the spec: [RetainedKnowledge] is declared in the header;
    it has the fact kind (or the none sentinel), the nullable referenced
    value, and the integer argument, a "no value" sentinel when the bundle
    had none. *)
Record RetainedKnowledge : Type := {
  RK_AttrKind : AttrKind;
  RK_ArgValue : option Z;
  RK_WasOn : option Value;
}.

#[global] Instance RetainedKnowledge_eq_dec : EqDecision RetainedKnowledge.
Proof. solve_decision. Defined.

(** [RetainedKnowledge::none()] *)
Definition RK_none : RetainedKnowledge :=
  {| RK_AttrKind := Attribute_None; RK_ArgValue := None; RK_WasOn := None |}.

(** [operator bool]: "kind is not the none-sentinel". *)
Definition RK_bool (RK : RetainedKnowledge) : bool :=
  bool_decide (RK_AttrKind RK ≠ Attribute_None).

(** [DenseMap<std::pair<Value *, Attribute::AttrKind>,
              DenseMap<IntrinsicInst *, MinMax>>] *)
Abbreviation RetainedKnowledgeKey := (option Value * AttrKind)%type.
Abbreviation Assume2KnowledgeMap := (gmap nat MinMax).
Abbreviation RetainedKnowledgeMap := (gmap (option Value * AttrKind) (gmap nat MinMax)).

(** *** Bundle accessor *)

Definition bundleHasArgument (BOI : BundleOpInfo) (Idx : Z) : bool :=
  bool_decide (Idx < (BOI_End BOI - BOI_Begin BOI) `mod` 2 ^ 32).

Definition getValueFromBundleOpInfo (Assume : Instruction)
    (BOI : BundleOpInfo) (Idx : Z) : result Value :=
  _ ← assert (bundleHasArgument BOI Idx);
  match inst_operands Assume !! Z.to_nat (BOI_Begin BOI + Idx) with
  | Some V => Ok V
  | None => Fatal
  end.

(** *** hasAttributeInAssume *)

(** The scan of the bundle table.  [ArgVal] is [None] for a null pointer and
    otherwise holds the content of the pointee; the content after the call
    is returned with the boolean. *)
Fixpoint hasAttributeInAssume_loop (Assume : Instruction) (IsOn : option Value)
    (AttrName : string) (ArgVal : option Z) (BOIs : list BundleOpInfo)
    : result (bool * option Z) :=
  match BOIs with
  | [] => Ok (false, ArgVal)
  | BOI :: rest =>
      if bool_decide (BOI_Tag BOI ≠ AttrName) then
        hasAttributeInAssume_loop Assume IsOn AttrName ArgVal rest
      else
        skip ← match IsOn with
               | None => Ok false
               | Some on =>
                   if bool_decide
                        ((BOI_End BOI - BOI_Begin BOI) `mod` 2 ^ 32 ≤ ABA_WasOn)
                   then Ok true
                   else
                     V ← getValueFromBundleOpInfo Assume BOI ABA_WasOn;
                     Ok (bool_decide (on ≠ V))
               end;
        if skip : bool then
          hasAttributeInAssume_loop Assume IsOn AttrName ArgVal rest
        else
          match ArgVal with
          | None => Ok (true, None)
          | Some _ =>
              _ ← assert (bool_decide
                     (ABA_Argument < (BOI_End BOI - BOI_Begin BOI) `mod` 2 ^ 32));
              V ← getValueFromBundleOpInfo Assume BOI ABA_Argument;
              z ← getZExtValue V;
              Ok (true, Some z)
          end
  end.

Definition hasAttributeInAssume (AssumeCI : Instruction) (IsOn : option Value)
    (AttrName : string) (ArgVal : option Z) : result (bool * option Z) :=
  _ ← assert (bool_decide (is_Some (inst_intrinsic AssumeCI)));
  _ ← assert (isAssume AssumeCI);
  _ ← assert (isExistingAttribute AttrName);
  _ ← assert (bool_decide (ArgVal = None)
              || doesAttrKindHaveArgument (getAttrKindFromName AttrName));
  if bool_decide (bundle_op_infos AssumeCI = []) then Ok (false, ArgVal)
  else
    hasAttributeInAssume_loop AssumeCI IsOn AttrName ArgVal
      (bundle_op_infos AssumeCI).

(** *** fillMapFromAssume *)

(** The body of the loop over the bundles.  [Val] is an [unsigned]: the
    64-bit value of the constant is truncated to 32 bits. *)
Definition fillMapFromAssume_body (Assume : Instruction)
    (Bundles : BundleOpInfo) (Result : RetainedKnowledgeMap)
    : result RetainedKnowledgeMap :=
  KeyFirst ← (if bundleHasArgument Bundles ABA_WasOn
              then Some <$> getValueFromBundleOpInfo Assume Bundles ABA_WasOn
              else Ok None);
  let Key : RetainedKnowledgeKey :=
    (KeyFirst, getAttrKindFromName (BOI_Tag Bundles)) in
  if bool_decide (Key.1 = None ∧ Key.2 = Attribute_None) then Ok Result
  else if negb (bundleHasArgument Bundles ABA_Argument) then
    Ok (<[Key := <[inst_addr Assume := {| Min := 0; Max := 0 |}]>
                   (default ∅ (Result !! Key))]> Result)
  else
    C ← getValueFromBundleOpInfo Assume Bundles ABA_Argument;
    z ← getZExtValue C;
    let Val := z `mod` 2 ^ 32 in
    match Result !! Key with
    | None =>
        Ok (<[Key := <[inst_addr Assume := {| Min := Val; Max := Val |}]> ∅]>
              Result)
    | Some Inner =>
        match Inner !! inst_addr Assume with
        | None =>
            Ok (<[Key := <[inst_addr Assume := {| Min := Val; Max := Val |}]>
                           Inner]> Result)
        | Some MM =>
            let MM1 := {| Min := Z.min Val (Min MM); Max := Max MM |} in
            let MM2 := {| Min := Min MM1; Max := Z.max Val (Max MM1) |} in
            Ok (<[Key := <[inst_addr Assume := MM2]>
                           (<[inst_addr Assume := MM1]> Inner)]> Result)
        end
    end.

Fixpoint fillMapFromAssume_loop (Assume : Instruction)
    (BOIs : list BundleOpInfo) (Result : RetainedKnowledgeMap)
    : result RetainedKnowledgeMap :=
  match BOIs with
  | [] => Ok Result
  | Bundles :: rest =>
      Result' ← fillMapFromAssume_body Assume Bundles Result;
      fillMapFromAssume_loop Assume rest Result'
  end.

Definition fillMapFromAssume (AssumeCI : Instruction)
    (Result : RetainedKnowledgeMap) : result RetainedKnowledgeMap :=
  _ ← assert (bool_decide (is_Some (inst_intrinsic AssumeCI)));
  _ ← assert (isAssume AssumeCI);
  fillMapFromAssume_loop AssumeCI (bundle_op_infos AssumeCI) Result.

(** The entry of a (key, assumption) pair in the map. *)
Definition lookupMinMax (Result : RetainedKnowledgeMap)
    (Key : RetainedKnowledgeKey) (Assume : Instruction) : option MinMax :=
  Result !! Key ≫= (.!! inst_addr Assume).

(** *** getKnowledgeFromBundle *)

Definition getKnowledgeFromBundle (Assume : Instruction) (BOI : BundleOpInfo)
    : result RetainedKnowledge :=
  let Kind := getAttrKindFromName (BOI_Tag BOI) in
  WasOn ← (if bundleHasArgument BOI ABA_WasOn
           then Some <$> getValueFromBundleOpInfo Assume BOI ABA_WasOn
           else Ok None);
  ArgValue ← (if bool_decide
                   (ABA_Argument < (BOI_End BOI - BOI_Begin BOI) `mod` 2 ^ 32)
              then
                V ← getValueFromBundleOpInfo Assume BOI ABA_Argument;
                Some <$> getZExtValue V
              else Ok None);
  Ok {| RK_AttrKind := Kind; RK_ArgValue := ArgValue; RK_WasOn := WasOn |}.

Definition getKnowledgeFromOperandInAssume (AssumeCI : Instruction)
    (Idx : nat) : result RetainedKnowledge :=
  _ ← assert (bool_decide (is_Some (inst_intrinsic AssumeCI)));
  _ ← assert (isAssume AssumeCI);
  BOI ← getBundleOpInfoForOperand AssumeCI Idx;
  getKnowledgeFromBundle AssumeCI BOI.

(** *** isAssumeWithEmptyBundle *)

Definition isAssumeWithEmptyBundle (CI : Instruction) : result bool :=
  _ ← assert (bool_decide (is_Some (inst_intrinsic CI)));
  _ ← assert (isAssume CI);
  Ok (negb (existsb (λ BOI, bool_decide (BOI_Tag BOI ≠ IgnoreBundleTag))
                    (bundle_op_infos CI))).

(** *** Use-site resolution *)

(** The matchers are those of LLVM's PatternMatch.h: [m_Intrinsic<ID>(P)]
    holds of a call to the intrinsic [ID] whose argument operand 0 matches
    [P], [m_Specific(V)] of the value [V] itself and [m_Unless(P)] of what
    [P] does not match.  The pattern of the source thus holds of a call to
    [llvm.assume] whose condition (argument operand 0) is not the used
    value. *)
Definition getBundleFromUse (U : Use) : result (option BundleOpInfo) :=
  if isAssume (U_user U)
     && bool_decide (getArgOperand (U_user U) 0 ≠ Use_get U)
  then Some <$> getBundleOpInfoForOperand (U_user U) (U_operandNo U)
  else Ok None.

Definition getKnowledgeFromUse (U : Use) (AttrKinds : list AttrKind)
    : result RetainedKnowledge :=
  Bundle ← getBundleFromUse U;
  match Bundle with
  | None => Ok RK_none
  | Some BOI =>
      RK ← getKnowledgeFromBundle (U_user U) BOI;
      if existsb (λ Attr, bool_decide (Attr = RK_AttrKind RK)) AttrKinds
      then Ok RK
      else Ok RK_none
  end.

(** *** Value-wide knowledge search *)

Abbreviation FilterFn := (RetainedKnowledge → Instruction → BundleOpInfo → bool).

Definition is_contained (AttrKinds : list AttrKind) (K : AttrKind) : bool :=
  bool_decide (K ∈ AttrKinds).

(** The loop over [AC->assumptionsFor(V)]. *)
Fixpoint getKnowledgeForValue_indexed (AttrKinds : list AttrKind)
    (Filter : FilterFn) (Elems : list ResultElem) : result RetainedKnowledge :=
  match Elems with
  | [] => Ok RK_none
  | Elem :: rest =>
      II ← match RE_Assume Elem with
           | None => Ok None
           | Some Inst =>
               _ ← assert (bool_decide (is_Some (inst_intrinsic Inst)));
               Ok (Some Inst)
           end;
      match II with
      | None => getKnowledgeForValue_indexed AttrKinds Filter rest
      | Some Inst =>
          if bool_decide (RE_Index Elem = ExprResultIdx) then
            getKnowledgeForValue_indexed AttrKinds Filter rest
          else
            match bundle_op_infos Inst !! Z.to_nat (RE_Index Elem) with
            | None => Fatal
            | Some BOI =>
                RK ← getKnowledgeFromBundle Inst BOI;
                if RK_bool RK && is_contained AttrKinds (RK_AttrKind RK)
                   && Filter RK Inst BOI
                then Ok RK
                else getKnowledgeForValue_indexed AttrKinds Filter rest
            end
      end
  end.

(** The loop over [V->uses()]. *)
Fixpoint getKnowledgeForValue_uses (AttrKinds : list AttrKind)
    (Filter : FilterFn) (Uses : list Use) : result RetainedKnowledge :=
  match Uses with
  | [] => Ok RK_none
  | U :: rest =>
      Bundle ← getBundleFromUse U;
      match Bundle with
      | None => getKnowledgeForValue_uses AttrKinds Filter rest
      | Some BOI =>
          RK ← getKnowledgeFromBundle (U_user U) BOI;
          if RK_bool RK && is_contained AttrKinds (RK_AttrKind RK)
             && Filter RK (U_user U) BOI
          then Ok RK
          else getKnowledgeForValue_uses AttrKinds Filter rest
      end
  end.

(** [uses] is the use-list of each value, [AC] the assumption cache, if any,
    as the list [assumptionsFor] returns for each value. *)
Definition getKnowledgeForValue (uses : Value → list Use) (V : Value)
    (AttrKinds : list AttrKind) (AC : option (Value → list ResultElem))
    (Filter : FilterFn) : result RetainedKnowledge :=
  match AC with
  | Some assumptionsFor =>
      getKnowledgeForValue_indexed AttrKinds Filter (assumptionsFor V)
  | None => getKnowledgeForValue_uses AttrKinds Filter (uses V)
  end.


End Queries.

(** ** A small registry and IR fragments for the examples *)

Module Sample.

Inductive Kind : Type := None_ | Alignment | Dereferenceable | NonNull.

#[global] Instance Kind_eq_dec : EqDecision Kind.
Proof. solve_decision. Defined.

#[global] Instance Kind_countable : Countable Kind.
Proof.
  refine (inj_countable'
    (λ k, match k with
          | None_ => 0%nat | Alignment => 1%nat
          | Dereferenceable => 2%nat | NonNull => 3%nat
          end)
    (λ n, match n with
          | 0%nat => None_ | 1%nat => Alignment
          | 2%nat => Dereferenceable | _ => NonNull
          end) _).
  by intros [].
Defined.

Definition kindFromName (s : string) : Kind :=
  if decide (s = "align") then Alignment
  else if decide (s = "dereferenceable") then Dereferenceable
  else if decide (s = "nonnull") then NonNull
  else None_.

Definition registry : AttributeRegistry :=
  {| AttrKind := Kind;
     Attribute_None := None_;
     getAttrKindFromName := kindFromName;
     isExistingAttribute := λ s, bool_decide (kindFromName s ≠ None_);
     doesAttrKindHaveArgument := λ k,
       bool_decide (k = Alignment ∨ k = Dereferenceable) |}.

(** [%p], the condition [i1 true] and the callee [@llvm.assume]. *)
Definition p : Value := OtherValue 1.
Definition cond : Value := ConstantInt 1 1.
Definition callee : Value := OtherValue 0.
Definition i64 (z : Z) : Value := ConstantInt 64 z.

(** [call void @llvm.assume(i1 true) ["align"(%p, i64 8)]] *)
Definition assume_align : Instruction :=
  mkAssume 100 cond callee [("align", [p; i64 8])].

(** [... ["align"(%p, i64 5), "align"(%p, i64 2), "align"(%p, i64 9)]] *)
Definition assume_three : Instruction :=
  mkAssume 101 cond callee
    [("align", [p; i64 5]); ("align", [p; i64 2]); ("align", [p; i64 9])].

(** [... ["ignore"(%p, i64 5), "ignore"(%p)]]: two bundles of the key
    (%p, none kind), the first with an argument, the second without. *)
Definition assume_ignore : Instruction :=
  mkAssume 102 cond callee [("ignore", [p; i64 5]); ("ignore", [p])].

(** [... ["ignore"(%p), "ignore"(%p, i64 0)]] *)
Definition assume_zero : Instruction :=
  mkAssume 103 cond callee [("ignore", [p]); ("ignore", [p; i64 0])].

(** [... ["align"(%p, i64 8), "nonnull"(%p)]] *)
Definition assume_two_kinds : Instruction :=
  mkAssume 104 cond callee [("align", [p; i64 8]); ("nonnull", [p])].

(** [call void @llvm.assume(i1 true)], without bundle. *)
Definition assume_bare : Instruction := mkAssume 105 cond callee [].

(** The uses of [%p] in [assume_two_kinds], the most recent first (as a
    use-list grows) and in operand order. *)
Definition use_align : Use := {| U_user := assume_two_kinds; U_operandNo := 1 |}.
Definition use_nonnull : Use :=
  {| U_user := assume_two_kinds; U_operandNo := 3 |}.

Definition uses_recent_first (V : Value) : list Use :=
  if decide (V = p) then [use_nonnull; use_align] else [].
Definition uses_operand_order (V : Value) : list Use :=
  if decide (V = p) then [use_align; use_nonnull] else [].

(** The assumption index of [%p]: the bundles 0 and 1 of
    [assume_two_kinds]. *)
Definition assumptionsFor (V : Value) : list ResultElem :=
  if decide (V = p)
  then [ {| RE_Assume := Some assume_two_kinds; RE_Index := 0 |};
         {| RE_Assume := Some assume_two_kinds; RE_Index := 1 |} ]
  else [].

(** [%p] with an ["align"] fact in each of two assumes: [assume_align]
    (argument 8) came first, [assume_align16] (argument 16) second. *)
Definition assume_align16 : Instruction :=
  mkAssume 106 cond callee [("align", [p; i64 16])].

Definition uses_two_assumes (V : Value) : list Use :=
  if decide (V = p)
  then [ {| U_user := assume_align16; U_operandNo := 1 |};
         {| U_user := assume_align; U_operandNo := 1 |} ]
  else [].

Definition index_two_assumes (V : Value) : list ResultElem :=
  if decide (V = p)
  then [ {| RE_Assume := Some assume_align; RE_Index := 0 |};
         {| RE_Assume := Some assume_align16; RE_Index := 0 |} ]
  else [].

(** [... ["dereferenceable"(%p, i64 4294967301)]], an argument of 33 bits. *)
Definition assume_wide : Instruction :=
  mkAssume 107 cond callee [("dereferenceable", [p; i64 (2 ^ 32 + 5)])].

(** [assume_ignore] with the literal argument 0 in the place of the missing
    one: [... ["ignore"(%p, i64 5), "ignore"(%p, i64 0)]]. *)
Definition assume_ignore_zero : Instruction :=
  mkAssume 102 cond callee [("ignore", [p; i64 5]); ("ignore", [p; i64 0])].

(** [... ["ignore"(%p), "ignore"(%p, i64 5)]]: the bundle without argument
    comes first. *)
Definition assume_ignore_then_five : Instruction :=
  mkAssume 102 cond callee [("ignore", [p]); ("ignore", [p; i64 5])].

Definition always_true {RK : Type} (_ : RK) (_ : Instruction)
    (_ : BundleOpInfo) : bool := true.

End Sample.

(** ** Notions used by the statements *)

(** The bundle table lists consecutive, well-formed operand ranges, as the
    table of a call is built (see [layoutBundles]). *)
Fixpoint bundlesSorted (start : Z) (BOIs : list BundleOpInfo) : bool :=
  match BOIs with
  | [] => true
  | BOI :: rest =>
      bool_decide (start ≤ BOI_Begin BOI ≤ BOI_End BOI ∧ BOI_End BOI < 2 ^ 32)
      && bundlesSorted (BOI_End BOI) rest
  end.

(** The fields of a bundle are 32-bit and delimit a range. *)
Definition BOI_wf (BOI : BundleOpInfo) : Prop :=
  0 ≤ BOI_Begin BOI ≤ BOI_End BOI ∧ BOI_End BOI < 2 ^ 32.

(** The operand slots a bundle owns. *)
Definition bundleSlots (Assume : Instruction) (BOI : BundleOpInfo)
    : list Value :=
  take (Z.to_nat (BOI_End BOI - BOI_Begin BOI))
       (drop (Z.to_nat (BOI_Begin BOI)) (inst_operands Assume)).

(** [new] contains the interval [old]. *)
Definition widens (old new : MinMax) : Prop :=
  Min new ≤ Min old ∧ Max old ≤ Max new.

#[global] Instance widens_dec old new : Decision (widens old new).
Proof. unfold widens. apply _. Defined.

(** A bundle is the one [hasAttributeInAssume] looks for, or one its scan
    passes over. *)
Definition bundleMatches (Assume : Instruction) (IsOn : option Value)
    (AttrName : string) (BOI : BundleOpInfo) : Prop :=
  BOI_Tag BOI = AttrName ∧
  ∀ on, IsOn = Some on →
        getValueFromBundleOpInfo Assume BOI ABA_WasOn = Ok on.

Definition bundleRejected (Assume : Instruction) (IsOn : option Value)
    (AttrName : string) (BOI : BundleOpInfo) : Prop :=
  BOI_Tag BOI ≠ AttrName ∨
  ∃ on, IsOn = Some on ∧
        (bundleHasArgument BOI ABA_WasOn = false ∨
         ∃ V, getValueFromBundleOpInfo Assume BOI ABA_WasOn = Ok V ∧ V ≠ on).


(** ** What one bundle does to the map

    The loop body of [fillMapFromAssume] reads the bundle, which may fail,
    and then updates one entry of the map; the two are separated here for
    the proofs ([fillMapFromAssume_body_action] relates them). *)

Section FillModel.
Context `{!AttributeRegistry}.

Abbreviation RetainedKnowledgeKey := (option Value * AttrKind)%type.
Abbreviation RetainedKnowledgeMap :=
  (gmap (option Value * AttrKind) (gmap nat MinMax)).

(** The key of a bundle: its WasOn value, if any, and its decoded kind. *)
Definition bundleKey (Assume : Instruction) (Bundles : BundleOpInfo)
    : result RetainedKnowledgeKey :=
  KeyFirst ← (if bundleHasArgument Bundles ABA_WasOn
              then Some <$> getValueFromBundleOpInfo Assume Bundles ABA_WasOn
              else Ok None);
  Ok (KeyFirst, getAttrKindFromName (BOI_Tag Bundles)).

(** The argument of a bundle, and what [unsigned Val] holds of it. *)
Definition bundleArgument (Assume : Instruction) (Bundles : BundleOpInfo)
    : result Z :=
  C ← getValueFromBundleOpInfo Assume Bundles ABA_Argument;
  getZExtValue C.

Definition bundleVal (Assume : Instruction) (Bundles : BundleOpInfo)
    : result Z :=
  z ← bundleArgument Assume Bundles;
  Ok (z `mod` 2 ^ 32).

Inductive BundleAction : Type :=
  | ActSkip
  | ActReset (Key : RetainedKnowledgeKey)
  | ActObserve (Key : RetainedKnowledgeKey) (Val : Z).

Definition bundleAction (Assume : Instruction) (Bundles : BundleOpInfo)
    : result BundleAction :=
  Key ← bundleKey Assume Bundles;
  if bool_decide (Key.1 = None ∧ Key.2 = Attribute_None) then Ok ActSkip
  else if negb (bundleHasArgument Bundles ABA_Argument) then Ok (ActReset Key)
  else Val ← bundleVal Assume Bundles; Ok (ActObserve Key Val).

Definition widen (Val : Z) (old : option MinMax) : MinMax :=
  match old with
  | None => {| Min := Val; Max := Val |}
  | Some MM => {| Min := Z.min Val (Min MM); Max := Z.max Val (Max MM) |}
  end.

Definition actKey (act : BundleAction) : option RetainedKnowledgeKey :=
  match act with
  | ActSkip => None
  | ActReset Key | ActObserve Key _ => Some Key
  end.

Definition actEntry (act : BundleAction) (old : option MinMax) : MinMax :=
  match act with
  | ActObserve _ Val => widen Val old
  | _ => {| Min := 0; Max := 0 |}
  end.

Definition applyAction (a : nat) (Result : RetainedKnowledgeMap)
    (act : BundleAction) : RetainedKnowledgeMap :=
  match actKey act with
  | None => Result
  | Some Key =>
      <[Key := <[a := actEntry act (Result !! Key ≫= (.!! a))]>
                 (default ∅ (Result !! Key))]> Result
  end.

(** The same on the inner map of one key, and on one entry. *)
Definition applyInner (a : nat) (Key : RetainedKnowledgeKey)
    (Inner : option (gmap nat MinMax)) (act : BundleAction)
    : option (gmap nat MinMax) :=
  if bool_decide (actKey act = Some Key)
  then Some (<[a := actEntry act (Inner ≫= (.!! a))]> (default ∅ Inner))
  else Inner.

Definition applyEntry (Key : RetainedKnowledgeKey) (old : option MinMax)
    (act : BundleAction) : option MinMax :=
  if bool_decide (actKey act = Some Key) then Some (actEntry act old)
  else old.

Fixpoint bundleActions (Assume : Instruction) (BOIs : list BundleOpInfo)
    : result (list BundleAction) :=
  match BOIs with
  | [] => Ok []
  | Bundles :: rest =>
      act ← bundleAction Assume Bundles;
      acts ← bundleActions Assume rest;
      Ok (act :: acts)
  end.

(** The shapes the composition of the updates of one entry can take: it
    leaves the entry alone, it sets it, or it widens it by an interval. *)
Definition EntryNF (F : option MinMax → option MinMax) : Prop :=
  (∀ x, F x = x) ∨
  (∃ c, ∀ x, F x = Some c) ∨
  (∃ lo hi, F None = Some {| Min := lo; Max := hi |} ∧
            ∀ MM, F (Some MM) = Some {| Min := Z.min lo (Min MM);
                                        Max := Z.max hi (Max MM) |}).

End FillModel.

(** The assumption index lists, in the order of the use-list, the bundle
    that owns each use the use-scan resolves: a use the scan passes over has
    no entry, and entries whose assume is gone belong to no use. *)
Inductive IndexFollowsUses : list Use → list ResultElem → Prop :=
  | follows_nil : IndexFollowsUses [] []
  | follows_skip U Uses Elems :
      getBundleFromUse U = Ok None →
      IndexFollowsUses Uses Elems →
      IndexFollowsUses (U :: Uses) Elems
  | follows_null Uses i Elems :
      IndexFollowsUses Uses Elems →
      IndexFollowsUses Uses ({| RE_Assume := None; RE_Index := i |} :: Elems)
  | follows_bundle U Uses i B Elems :
      getBundleFromUse U = Ok (Some B) →
      bundle_op_infos (U_user U) !! Z.to_nat i = Some B →
      i ≠ ExprResultIdx →
      IndexFollowsUses Uses Elems →
      IndexFollowsUses (U :: Uses)
        ({| RE_Assume := Some (U_user U); RE_Index := i |} :: Elems).

(** ** Notions used by the further properties *)

(** Every bound of the map fits [unsigned]. *)
Definition Map_bounded `{!AttributeRegistry}
    (Result : gmap (option Value * AttrKind) (gmap nat MinMax)) : Prop :=
  ∀ Key Inner a MM,
    Result !! Key = Some Inner → Inner !! a = Some MM →
    (0 ≤ Min MM ∧ Min MM < 2 ^ 32) ∧ (0 ≤ Max MM ∧ Max MM < 2 ^ 32).

Section SearchModel.
Context `{!AttributeRegistry}.

(** The test a decoded knowledge must pass to be returned by
    [getKnowledgeForValue]. *)
Definition candidateAccepted (AttrKinds : list AttrKind)
    (Filter : RetainedKnowledge → Instruction → BundleOpInfo → bool)
    (RK : RetainedKnowledge) (Inst : Instruction) (BOI : BundleOpInfo) : bool :=
  RK_bool RK && is_contained AttrKinds (RK_AttrKind RK) && Filter RK Inst BOI.

(** A use the use-scan passes over without failing: it resolves to no
    bundle, or to a bundle whose knowledge is not accepted. *)
Definition usePassedOver (AttrKinds : list AttrKind)
    (Filter : RetainedKnowledge → Instruction → BundleOpInfo → bool)
    (U : Use) : Prop :=
  getBundleFromUse U = Ok None ∨
  ∃ BOI RK, getBundleFromUse U = Ok (Some BOI) ∧
            getKnowledgeFromBundle (U_user U) BOI = Ok RK ∧
            candidateAccepted AttrKinds Filter RK (U_user U) BOI = false.

(** An index entry the indexed path skips before it decodes anything: the
    handle is null, or the entry is an expression-result placeholder of an
    intrinsic call. *)
Definition elemSkipped (Elem : ResultElem) : Prop :=
  RE_Assume Elem = None ∨
  ∃ Inst, RE_Assume Elem = Some Inst ∧ is_Some (inst_intrinsic Inst) ∧
          RE_Index Elem = ExprResultIdx.

(** An index entry the indexed path passes over without failing. *)
Definition elemPassedOver (AttrKinds : list AttrKind)
    (Filter : RetainedKnowledge → Instruction → BundleOpInfo → bool)
    (Elem : ResultElem) : Prop :=
  elemSkipped Elem ∨
  ∃ Inst BOI RK,
    RE_Assume Elem = Some Inst ∧ is_Some (inst_intrinsic Inst) ∧
    RE_Index Elem ≠ ExprResultIdx ∧
    bundle_op_infos Inst !! Z.to_nat (RE_Index Elem) = Some BOI ∧
    getKnowledgeFromBundle Inst BOI = Ok RK ∧
    candidateAccepted AttrKinds Filter RK Inst BOI = false.

End SearchModel.

(** ** Further IR fragments for the examples *)

Module MoreSample.
Import Sample.

(** [... ["align"(%p), "align"(%p, i64 8)]]: the first bundle of the tag
    has no Argument slot. *)
Definition assume_bare_first : Instruction :=
  mkAssume 108 cond callee [("align", [p]); ("align", [p; i64 8])].

(** [... ["align"(%p, %q)]]: the Argument slot holds no constant. *)
Definition assume_bad_argument : Instruction :=
  mkAssume 109 cond callee [("align", [p; OtherValue 2])].

(** [... ["ignore"(), "unknown"()]]: no operand and no attribute kind. *)
Definition assume_anchors : Instruction :=
  mkAssume 110 cond callee [("ignore", []); ("unknown", [])].

(** A call that is not a call to [llvm.assume], using [%p]. *)
Definition other_call : Instruction :=
  {| inst_addr := 111; inst_intrinsic := None;
     inst_operands := [p; callee]; bundle_op_infos := [] |}.


End MoreSample.

(** ** The bundles as a call is built from them *)

Section BuiltModel.
Context `{!AttributeRegistry}.

(** What the loop body of [fillMapFromAssume] makes of a bundle, read off
    its tag and inputs. *)
Definition actionOfInputs (b : string * list Value) : result BundleAction :=
  let Kind := getAttrKindFromName b.1 in
  match b.2 with
  | [] => if bool_decide (Kind = Attribute_None) then Ok ActSkip
          else Ok (ActReset (None, Kind))
  | [V] => Ok (ActReset (Some V, Kind))
  | V :: C :: _ =>
      z ← getZExtValue C;
      Ok (ActObserve (Some V, Kind) (z `mod` 2 ^ 32))
  end.

Fixpoint actionsOfInputs (bs : list (string * list Value))
    : result (list BundleAction) :=
  match bs with
  | [] => Ok []
  | b :: rest =>
      act ← actionOfInputs b;
      acts ← actionsOfInputs rest;
      Ok (act :: acts)
  end.

End BuiltModel.

(** ** The candidates of the two search paths *)

Section CandidateModel.
Context `{!AttributeRegistry}.

(** The bundles the use-scan decodes, in the order of the use-list. *)
Fixpoint usesCandidates (Uses : list Use)
    : result (list (Instruction * BundleOpInfo)) :=
  match Uses with
  | [] => Ok []
  | U :: rest =>
      Bundle ← getBundleFromUse U;
      cs ← usesCandidates rest;
      Ok (match Bundle with
          | Some BOI => (U_user U, BOI) :: cs
          | None => cs
          end)
  end.

(** The bundles the indexed path decodes, in the order of the index. *)
Fixpoint elemsCandidates (Elems : list ResultElem)
    : result (list (Instruction * BundleOpInfo)) :=
  match Elems with
  | [] => Ok []
  | Elem :: rest =>
      match RE_Assume Elem with
      | None => elemsCandidates rest
      | Some Inst =>
          _ ← assert (bool_decide (is_Some (inst_intrinsic Inst)));
          if bool_decide (RE_Index Elem = ExprResultIdx) then
            elemsCandidates rest
          else
            match bundle_op_infos Inst !! Z.to_nat (RE_Index Elem) with
            | None => Fatal
            | Some BOI =>
                cs ← elemsCandidates rest;
                Ok ((Inst, BOI) :: cs)
            end
      end
  end.

(** The scan both paths make of their candidates. *)
Fixpoint firstAccepted (AttrKinds : list AttrKind)
    (Filter : RetainedKnowledge → Instruction → BundleOpInfo → bool)
    (cs : list (Instruction * BundleOpInfo)) : result RetainedKnowledge :=
  match cs with
  | [] => Ok RK_none
  | (Inst, BOI) :: rest =>
      RK ← getKnowledgeFromBundle Inst BOI;
      if candidateAccepted AttrKinds Filter RK Inst BOI then Ok RK
      else firstAccepted AttrKinds Filter rest
  end.

(** A candidate that decodes to an accepted knowledge. *)
Definition acceptedAs (AttrKinds : list AttrKind)
    (Filter : RetainedKnowledge → Instruction → BundleOpInfo → bool)
    (c : Instruction * BundleOpInfo) (RK : RetainedKnowledge) : Prop :=
  getKnowledgeFromBundle c.1 c.2 = Ok RK ∧
  candidateAccepted AttrKinds Filter RK c.1 c.2 = true.

End CandidateModel.

(** * Properties *)

Section Properties.
Context `{!AttributeRegistry}.

Lemma bind_Ok {A B} (f : A → result B) (r : result A) (b : B) :
  r ≫= f = Ok b ↔ ∃ a, r = Ok a ∧ f a = Ok b.
Proof.
  destruct r as [a|]; simpl; split.
  - intros Hf. by exists a.
  - by intros (a' & [= ->] & Hf).
  - done.
  - by intros (a' & [=] & _).
Qed.

(** Every assume call is an intrinsic call: the [cast<IntrinsicInst>] of the
    entry points succeeds on it. *)
Lemma isAssume_intrinsic Inst :
  isAssume Inst = true → bool_decide (is_Some (inst_intrinsic Inst)) = true.
Proof.
  unfold isAssume. intros ->%bool_decide_eq_true.
  apply bool_decide_eq_true. eauto.
Qed.

(** ** Bundle accessor *)

Lemma slot_count_wf (BOI : BundleOpInfo) :
  BOI_wf BOI →
  (BOI_End BOI - BOI_Begin BOI) `mod` 2 ^ 32 = BOI_End BOI - BOI_Begin BOI.
Proof. intros Hwf. apply Z.mod_small. unfold BOI_wf in Hwf. lia. Qed.

Lemma getValueFromBundleOpInfo_Ok Assume BOI Idx V :
  getValueFromBundleOpInfo Assume BOI Idx = Ok V ↔
  bundleHasArgument BOI Idx = true ∧
  inst_operands Assume !! Z.to_nat (BOI_Begin BOI + Idx) = Some V.
Proof.
  unfold getValueFromBundleOpInfo.
  destruct (bundleHasArgument BOI Idx); simpl.
  - destruct (inst_operands Assume !! _) as [W|]; split.
    + by intros [= ->].
    + by intros [_ [= ->]].
    + done.
    + by intros [_ ?].
  - split; [done | by intros [? _]].
Qed.

(** C7: [bundleHasArgument] holds exactly when the slot count of the bundle
    exceeds the index ([End - Begin], computed on 32 bits, which is the
    number of slots of a well-formed bundle); [getValueFromBundleOpInfo]
    fails fatally when it does not hold, and what it returns otherwise is
    the slot of the bundle at that index. *)
Theorem bundleHasArgument_slot_bounds (Assume : Instruction)
    (BOI : BundleOpInfo) (Idx : Z) :
  0 ≤ Idx →
  (bundleHasArgument BOI Idx = true ↔
     Idx < (BOI_End BOI - BOI_Begin BOI) `mod` 2 ^ 32) ∧
  (BOI_wf BOI →
     (bundleHasArgument BOI Idx = true ↔ Idx < BOI_End BOI - BOI_Begin BOI) ∧
     (BOI_End BOI ≤ Z.of_nat (length (inst_operands Assume)) →
        bundleHasArgument BOI Idx = true ↔
        (Z.to_nat Idx < length (bundleSlots Assume BOI))%nat)) ∧
  (bundleHasArgument BOI Idx = false →
     getValueFromBundleOpInfo Assume BOI Idx = Fatal) ∧
  (∀ V, getValueFromBundleOpInfo Assume BOI Idx = Ok V →
     bundleHasArgument BOI Idx = true ∧
     (BOI_wf BOI →
        bundleSlots Assume BOI !! Z.to_nat Idx = Some V)).
Proof.
  intros HIdx. split_and!.
  - unfold bundleHasArgument. by rewrite bool_decide_eq_true.
  - intros Hwf. unfold bundleHasArgument.
    rewrite bool_decide_eq_true, slot_count_wf by done. split; [done|].
    intros Hlen. unfold bundleSlots, BOI_wf in *.
    rewrite length_take, length_drop. lia.
  - intros Hno. unfold getValueFromBundleOpInfo. by rewrite Hno.
  - intros V [Hhas Hop]%getValueFromBundleOpInfo_Ok. split; [done|].
    intros Hwf. unfold bundleHasArgument in Hhas.
    rewrite bool_decide_eq_true, slot_count_wf in Hhas by done.
    unfold bundleSlots, BOI_wf in *. rewrite lookup_take_lt by lia.
    rewrite lookup_drop. rewrite <- Hop. f_equal. lia.
Qed.

(** ** isAssumeWithEmptyBundle *)

(** C8: on an assume, [isAssumeWithEmptyBundle] is true exactly when every
    bundle has the ignore tag; with no bundle at all it is true. *)
Theorem isAssumeWithEmptyBundle_iff (CI : Instruction) :
  isAssume CI = true →
  ∃ b, isAssumeWithEmptyBundle CI = Ok b ∧
       (b = true ↔
          Forall (λ BOI, BOI_Tag BOI = IgnoreBundleTag) (bundle_op_infos CI)) ∧
       (bundle_op_infos CI = [] → b = true).
Proof.
  intros HA. unfold isAssumeWithEmptyBundle.
  rewrite (isAssume_intrinsic _ HA), HA. simpl.
  eexists. split; [reflexivity|]. split.
  - rewrite negb_true_iff, <- not_true_iff_false, existsb_exists, Forall_forall.
    split.
    + intros Hnone BOI HB. destruct (decide (BOI_Tag BOI = IgnoreBundleTag)) as [|Hne]; [done|].
      exfalso. apply Hnone. exists BOI. split; [by apply list_elem_of_In|].
      by apply bool_decide_eq_true.
    + intros Hall (BOI & HB%list_elem_of_In & Hne%bool_decide_eq_true).
      by apply Hne, Hall.
  - by intros ->.
Qed.

(** ** Use-site resolution *)

Lemma bundlesSorted_lower start BOIs B :
  bundlesSorted start BOIs = true → B ∈ BOIs → start ≤ BOI_Begin B.
Proof.
  revert start. induction BOIs as [|B0 rest IH]; intros start Hs HB.
  - by apply elem_of_nil in HB.
  - simpl in Hs. apply andb_true_iff in Hs as [Hh%bool_decide_eq_true Hr].
    apply elem_of_cons in HB as [-> | HB]; [lia|].
    specialize (IH _ Hr HB). lia.
Qed.

Lemma bundlesSorted_wf start BOIs B :
  bundlesSorted start BOIs = true → B ∈ BOIs → 0 ≤ start → BOI_wf B.
Proof.
  revert start. induction BOIs as [|B0 rest IH]; intros start Hs HB Hpos.
  - by apply elem_of_nil in HB.
  - simpl in Hs. apply andb_true_iff in Hs as [Hh%bool_decide_eq_true Hr].
    apply elem_of_cons in HB as [-> | HB]; [unfold BOI_wf; lia|].
    apply (IH (BOI_End B0)); [done..|lia].
Qed.

Lemma find_owning_bundle start BOIs B (k : Z) :
  bundlesSorted start BOIs = true → B ∈ BOIs →
  BOI_Begin B ≤ k < BOI_End B →
  List.find (λ BOI, bool_decide (BOI_Begin BOI ≤ k < BOI_End BOI)) BOIs
  = Some B.
Proof.
  revert start. induction BOIs as [|B0 rest IH]; intros start Hs HB Hk.
  - by apply elem_of_nil in HB.
  - simpl in Hs. apply andb_true_iff in Hs as [Hh%bool_decide_eq_true Hr].
    simpl. apply elem_of_cons in HB as [<- | HB].
    + by rewrite bool_decide_eq_true_2.
    + pose proof (bundlesSorted_lower _ _ _ Hr HB) as Hlow.
      rewrite bool_decide_eq_false_2 by lia. by apply (IH (BOI_End B0)).
Qed.

Lemma find_no_owner BOIs (k : Z) :
  Forall (λ B, ¬ (BOI_Begin B ≤ k < BOI_End B)) BOIs →
  List.find (λ BOI, bool_decide (BOI_Begin BOI ≤ k < BOI_End BOI)) BOIs
  = None.
Proof.
  induction 1 as [|B rest HB _ IH]; [done|].
  simpl. by rewrite bool_decide_eq_false_2.
Qed.

Lemma getBundleOpInfoForOperand_owner Assume B (OpIdx : nat) :
  bundlesSorted 1 (bundle_op_infos Assume) = true →
  B ∈ bundle_op_infos Assume →
  BOI_Begin B ≤ Z.of_nat OpIdx < BOI_End B →
  getBundleOpInfoForOperand Assume OpIdx = Ok B.
Proof.
  intros Hs HB Hk. unfold getBundleOpInfoForOperand.
  by rewrite (find_owning_bundle 1 _ B).
Qed.

(** C1 (amended): on an assume whose bundle table is well formed,
    [getBundleFromUse] returns null for every use of the value that is the
    condition (argument operand 0) of the assume, and for every other use
    the bundle that owns the operand position; it fails fatally when no
    bundle owns the position, as for the callee.  In particular the use in
    the WasOn slot of a bundle, also of a bundle without Argument slot, and
    the use in its Argument slot resolve to that bundle when the used value
    differs from the condition, and to null when it is the condition. *)
Theorem getBundleFromUse_assume (Assume : Instruction) :
  isAssume Assume = true →
  bundlesSorted 1 (bundle_op_infos Assume) = true →
  (∀ n : nat,
     let U := {| U_user := Assume; U_operandNo := n |} in
     (getArgOperand Assume 0 = Use_get U → getBundleFromUse U = Ok None) ∧
     (getArgOperand Assume 0 ≠ Use_get U →
      (∀ B, B ∈ bundle_op_infos Assume →
            BOI_Begin B ≤ Z.of_nat n < BOI_End B →
            getBundleFromUse U = Ok (Some B)) ∧
      (Forall (λ B, ¬ (BOI_Begin B ≤ Z.of_nat n < BOI_End B))
              (bundle_op_infos Assume) →
       getBundleFromUse U = Fatal))) ∧
  (∀ B V, B ∈ bundle_op_infos Assume →
          getValueFromBundleOpInfo Assume B ABA_WasOn = Ok V →
          let UV :=
            {| U_user := Assume; U_operandNo := Z.to_nat (BOI_Begin B) |} in
          Use_get UV = Some V ∧
          getBundleFromUse UV
          = (if decide (getArgOperand Assume 0 = Some V) then Ok None
             else Ok (Some B))) ∧
  (∀ B V2, B ∈ bundle_op_infos Assume →
           getValueFromBundleOpInfo Assume B ABA_Argument = Ok V2 →
           let UV2 :=
             {| U_user := Assume;
                U_operandNo := Z.to_nat (BOI_Begin B + 1) |} in
           Use_get UV2 = Some V2 ∧
           getBundleFromUse UV2
           = (if decide (getArgOperand Assume 0 = Some V2) then Ok None
              else Ok (Some B))).
Proof.
  intros HA Hs.
  assert (Hgen : ∀ n : nat,
    let U := {| U_user := Assume; U_operandNo := n |} in
    (getArgOperand Assume 0 = Use_get U → getBundleFromUse U = Ok None) ∧
    (getArgOperand Assume 0 ≠ Use_get U →
     (∀ B, B ∈ bundle_op_infos Assume →
           BOI_Begin B ≤ Z.of_nat n < BOI_End B →
           getBundleFromUse U = Ok (Some B)) ∧
     (Forall (λ B, ¬ (BOI_Begin B ≤ Z.of_nat n < BOI_End B))
             (bundle_op_infos Assume) →
      getBundleFromUse U = Fatal))).
  { intros n U. unfold getBundleFromUse. simpl. rewrite HA. simpl. split.
    - intros Hcond. by rewrite bool_decide_eq_false_2 by (by intros ?).
    - intros Hcond. rewrite bool_decide_eq_true_2 by done. split.
      + intros B HB Hn. by rewrite (getBundleOpInfoForOperand_owner _ B).
      + intros Hnone. unfold getBundleOpInfoForOperand.
        by rewrite find_no_owner. }
  assert (Hslot : ∀ B (i : Z) W, B ∈ bundle_op_infos Assume →
    0 ≤ i →
    getValueFromBundleOpInfo Assume B i = Ok W →
    let U := {| U_user := Assume;
                U_operandNo := Z.to_nat (BOI_Begin B + i) |} in
    Use_get U = Some W ∧
    getBundleFromUse U
    = (if decide (getArgOperand Assume 0 = Some W) then Ok None
       else Ok (Some B))).
  { intros B i W HB Hi [Hhas HW]%getValueFromBundleOpInfo_Ok U.
    assert (Hwf : BOI_wf B) by (by apply (bundlesSorted_wf 1 _ B Hs)).
    unfold bundleHasArgument in Hhas.
    rewrite bool_decide_eq_true, slot_count_wf in Hhas by done.
    unfold BOI_wf in Hwf.
    assert (HU : Use_get U = Some W) by done.
    split; [done|].
    destruct (Hgen (Z.to_nat (BOI_Begin B + i))) as [Hc Hn]. fold U in Hc, Hn.
    rewrite HU in Hc, Hn.
    destruct (decide (getArgOperand Assume 0 = Some W)) as [He|Hne].
    - by apply Hc.
    - apply (proj1 (Hn Hne) B HB). lia. }
  split_and!; [done| |].
  - intros B V HB HV.
    pose proof (Hslot B 0 V HB (Z.le_refl 0) HV) as HS.
    by rewrite Z.add_0_r in HS.
  - intros B V2 HB HV2. apply (Hslot B 1 V2 HB); [lia | done].
Qed.

(** ** fillMapFromAssume *)

Lemma fillMapFromAssume_body_action Assume Bundles Result :
  fillMapFromAssume_body Assume Bundles Result
  = act ← bundleAction Assume Bundles;
    Ok (applyAction (inst_addr Assume) Result act).
Proof.
  unfold fillMapFromAssume_body, bundleAction, bundleKey, bundleVal,
    bundleArgument.
  destruct (if bundleHasArgument Bundles ABA_WasOn then _ else _)
    as [KeyFirst|]; simpl; [|done].
  case_bool_decide; [done|].
  destruct (bundleHasArgument Bundles ABA_Argument); simpl; [|done].
  destruct (getValueFromBundleOpInfo Assume Bundles ABA_Argument) as [C|];
    simpl; [|done].
  destruct (getZExtValue C) as [z|]; simpl; [|done].
  unfold applyAction. simpl.
  destruct (Result !! _) as [Inner|] eqn:HK; simpl; [|done].
  destruct (Inner !! inst_addr Assume) as [MM|] eqn:Ha; simpl; [|done].
  by rewrite insert_insert_eq.
Qed.

Lemma fillMapFromAssume_loop_actions Assume BOIs Result :
  fillMapFromAssume_loop Assume BOIs Result
  = acts ← bundleActions Assume BOIs;
    Ok (foldl (applyAction (inst_addr Assume)) Result acts).
Proof.
  revert Result. induction BOIs as [|Bundles rest IH]; intros Result; [done|].
  simpl. rewrite fillMapFromAssume_body_action.
  destruct (bundleAction Assume Bundles) as [act|]; simpl; [|done].
  rewrite IH. by destruct (bundleActions Assume rest).
Qed.

Lemma fillMapFromAssume_Ok AssumeCI Result Result' :
  fillMapFromAssume AssumeCI Result = Ok Result' ↔
  isAssume AssumeCI = true ∧
  ∃ acts, bundleActions AssumeCI (bundle_op_infos AssumeCI) = Ok acts ∧
          Result' = foldl (applyAction (inst_addr AssumeCI)) Result acts.
Proof.
  unfold fillMapFromAssume. rewrite fillMapFromAssume_loop_actions.
  destruct (isAssume AssumeCI) eqn:HA.
  - rewrite (isAssume_intrinsic _ HA). simpl.
    destruct (bundleActions _ _) as [acts|]; simpl; split.
    + intros [= <-]. eauto.
    + by intros (_ & acts' & [= <-] & ->).
    + done.
    + by intros (_ & acts' & [=] & _).
  - split; [|by intros [[=] _]].
    by destruct (bool_decide (is_Some (inst_intrinsic AssumeCI))).
Qed.

Lemma lookup_applyAction a Result act Key :
  applyAction a Result act !! Key = applyInner a Key (Result !! Key) act.
Proof.
  unfold applyAction, applyInner. destruct (actKey act) as [K|]; simpl.
  - rewrite lookup_insert. case_decide as HK; subst.
    + by rewrite bool_decide_eq_true_2.
    + rewrite bool_decide_eq_false_2; [done|]. by intros [= ->].
  - done.
Qed.

Lemma lookup_applyInner a Key Inner act :
  applyInner a Key Inner act ≫= (.!! a)
  = applyEntry Key (Inner ≫= (.!! a)) act.
Proof.
  unfold applyInner, applyEntry. case_bool_decide; [|done].
  simpl. by rewrite lookup_insert_eq.
Qed.

Lemma lookup_foldl_applyAction a acts Result Key :
  foldl (applyAction a) Result acts !! Key
  = foldl (applyInner a Key) (Result !! Key) acts.
Proof.
  revert Result. induction acts as [|act acts IH]; intros Result; [done|].
  simpl. by rewrite IH, lookup_applyAction.
Qed.

Lemma lookup_foldl_applyInner a Key acts Inner :
  foldl (applyInner a Key) Inner acts ≫= (.!! a)
  = foldl (applyEntry Key) (Inner ≫= (.!! a)) acts.
Proof.
  revert Inner. induction acts as [|act acts IH]; intros Inner; [done|].
  simpl. by rewrite IH, lookup_applyInner.
Qed.

Lemma foldl_applyEntry_NF Key acts :
  EntryNF (λ x, foldl (applyEntry Key) x acts).
Proof.
  induction acts as [|act acts IH] using rev_ind; [by left|].
  assert (Hstep : ∀ x, foldl (applyEntry Key) x (acts ++ [act])
                       = applyEntry Key (foldl (applyEntry Key) x acts) act)
    by (intros x; apply foldl_snoc).
  unfold EntryNF in *. setoid_rewrite Hstep. clear Hstep.
  unfold applyEntry at 1 3 5 7. case_bool_decide as HK; [|exact IH].
  destruct act as [|K|K Val]; simpl in *; [done| |].
  - right; left. eauto.
  - right. destruct IH as [Hid | [[c Hc] | (lo & hi & HN & HS)]].
    + right. exists Val, Val. split; [|intros MM]; by rewrite Hid.
    + left. exists (widen Val (Some c)). intros x. by rewrite Hc.
    + right. exists (Z.min Val lo), (Z.max Val hi). rewrite HN. split; [done|].
      intros MM. rewrite HS. simpl. by rewrite Z.min_assoc, Z.max_assoc.
Qed.

Lemma EntryNF_idemp F x : EntryNF F → F (F x) = F x.
Proof.
  intros [Hid | [[c Hc] | (lo & hi & HN & HS)]].
  - by rewrite !Hid.
  - by rewrite !Hc.
  - destruct x as [MM|].
    + rewrite !HS. simpl. f_equal. f_equal; lia.
    + rewrite HN, HS. simpl. f_equal. f_equal; lia.
Qed.

Lemma foldl_applyInner_touched a Key acts y Inner :
  ∃ y', foldl (applyInner a Key) (Some (<[a:=y]> Inner)) acts
        = Some (<[a:=y']> Inner).
Proof.
  revert y. induction acts as [|act acts IH]; intros y; [by exists y|].
  simpl. unfold applyInner at 2. case_bool_decide; [|apply IH].
  simpl. rewrite insert_insert_eq. apply IH.
Qed.

Lemma foldl_applyInner_form a Key acts :
  (∀ Inner, foldl (applyInner a Key) Inner acts = Inner) ∨
  (∀ Inner, ∃ y, foldl (applyInner a Key) Inner acts
                 = Some (<[a:=y]> (default ∅ Inner))).
Proof.
  induction acts as [|act acts IH]; [by left|].
  simpl. unfold applyInner at 2 4. case_bool_decide; [|done].
  right. intros Inner. apply foldl_applyInner_touched.
Qed.

Lemma foldl_applyInner_idemp a Key acts Inner :
  foldl (applyInner a Key) (foldl (applyInner a Key) Inner acts) acts
  = foldl (applyInner a Key) Inner acts.
Proof.
  destruct (foldl_applyInner_form a Key acts) as [Hid | Hset].
  - by rewrite !Hid.
  - destruct (Hset Inner) as [y Hy]. rewrite Hy.
    destruct (foldl_applyInner_touched a Key acts y (default ∅ Inner))
      as [y' Hy'].
    rewrite Hy'. do 2 f_equal.
    pose proof (lookup_foldl_applyInner a Key acts
                  (Some (<[a:=y]> (default ∅ Inner)))) as H2.
    rewrite Hy' in H2. simpl in H2. rewrite !lookup_insert_eq in H2.
    pose proof (lookup_foldl_applyInner a Key acts Inner) as H1.
    rewrite Hy in H1. simpl in H1. rewrite lookup_insert_eq in H1.
    rewrite H1 in H2.
    rewrite (EntryNF_idemp (λ x, foldl (applyEntry Key) x acts)) in H2
      by apply foldl_applyEntry_NF.
    rewrite <- H1 in H2. by injection H2.
Qed.

Lemma foldl_applyAction_idemp a acts (Result : gmap _ (gmap nat MinMax)) :
  foldl (applyAction a) (foldl (applyAction a) Result acts) acts
  = foldl (applyAction a) Result acts.
Proof.
  apply map_eq. intros Key.
  by rewrite !lookup_foldl_applyAction, foldl_applyInner_idemp.
Qed.





Lemma fillMapFromAssume_loop_app Assume pre B post Result Result' :
  fillMapFromAssume_loop Assume (pre ++ B :: post) Result = Ok Result' ↔
  ∃ R1 R2, fillMapFromAssume_loop Assume pre Result = Ok R1 ∧
           fillMapFromAssume_body Assume B R1 = Ok R2 ∧
           fillMapFromAssume_loop Assume post R2 = Ok Result'.
Proof.
  revert Result. induction pre as [|B0 pre IH]; intros Result; simpl.
  - rewrite bind_Ok. split.
    + intros (R2 & HB & Hpost). by exists Result, R2.
    + intros (R1 & R2 & [= <-] & HB & Hpost). by exists R2.
  - rewrite bind_Ok. split.
    + intros (R0 & HB0 & (R1 & R2 & Hpre & HB & Hpost)%IH).
      exists R1, R2. split_and!; [|done..]. apply bind_Ok. by exists R0.
    + intros (R1 & R2 & (R0 & HB0 & Hpre)%bind_Ok & HB & Hpost).
      exists R0. split; [done|]. apply IH. by exists R1, R2.
Qed.

Lemma lookupMinMax_applyAction Assume Result act Key :
  lookupMinMax (applyAction (inst_addr Assume) Result act) Key Assume
  = applyEntry Key (lookupMinMax Result Key Assume) act.
Proof.
  unfold lookupMinMax. by rewrite lookup_applyAction, lookup_applyInner.
Qed.

Lemma lookupMinMax_foldl_applyAction Assume Result acts Key :
  lookupMinMax (foldl (applyAction (inst_addr Assume)) Result acts) Key Assume
  = foldl (applyEntry Key) (lookupMinMax Result Key Assume) acts.
Proof.
  unfold lookupMinMax.
  by rewrite lookup_foldl_applyAction, lookup_foldl_applyInner.
Qed.

Lemma applyEntry_other_key Key Key' old act :
  actKey act = Some Key → Key' ≠ Key → applyEntry Key' old act = old.
Proof.
  intros Hact Hne. unfold applyEntry. rewrite Hact.
  rewrite bool_decide_eq_false_2; [done|]. by intros [= ->].
Qed.

Lemma fillMapFromAssume_body_effect (Assume : Instruction)
    (Bundles : BundleOpInfo)
    (R1 R2 : gmap (option Value * AttrKind) (gmap nat MinMax)) :
  fillMapFromAssume_body Assume Bundles R1 = Ok R2 →
  ∃ Key,
    bundleKey Assume Bundles = Ok Key ∧
    (∀ Key', Key' ≠ Key →
             lookupMinMax R2 Key' Assume = lookupMinMax R1 Key' Assume) ∧
    if bool_decide (Key.1 = None ∧ Key.2 = Attribute_None) then R2 = R1
    else if bundleHasArgument Bundles ABA_Argument then
      ∃ z, bundleArgument Assume Bundles = Ok z ∧
           lookupMinMax R2 Key Assume
           = Some (widen (z `mod` 2 ^ 32) (lookupMinMax R1 Key Assume))
    else lookupMinMax R2 Key Assume = Some {| Min := 0; Max := 0 |}.
Proof.
  rewrite fillMapFromAssume_body_action.
  intros (act & Hact & [= <-])%bind_Ok. unfold bundleAction in Hact.
  apply bind_Ok in Hact as (Key & HKey & Hact). exists Key.
  split; [done|].
  destruct (bool_decide (Key.1 = None ∧ Key.2 = Attribute_None)) eqn:Hempty.
  { injection Hact as <-. split; [|done]. intros Key' _.
    by rewrite lookupMinMax_applyAction. }
  destruct (bundleHasArgument Bundles ABA_Argument); simpl in Hact.
  - apply bind_Ok in Hact as (Val & HVal & [= <-]).
    unfold bundleVal in HVal. apply bind_Ok in HVal as (z & Hz & [= <-]).
    split.
    + intros Key' Hne. rewrite lookupMinMax_applyAction.
      by apply (applyEntry_other_key Key).
    + exists z. split; [done|]. rewrite lookupMinMax_applyAction.
      unfold applyEntry. simpl. by rewrite bool_decide_eq_true_2.
  - injection Hact as <-. split.
    + intros Key' Hne. rewrite lookupMinMax_applyAction.
      by apply (applyEntry_other_key Key).
    + rewrite lookupMinMax_applyAction.
      unfold applyEntry. simpl. by rewrite bool_decide_eq_true_2.
Qed.


Lemma fillMapFromAssume_loop_other_key (Assume : Instruction)
    (Key : option Value * AttrKind) (BOIs : list BundleOpInfo)
    (R R' : gmap (option Value * AttrKind) (gmap nat MinMax)) :
  fillMapFromAssume_loop Assume BOIs R = Ok R' →
  (∀ B, B ∈ BOIs → bundleKey Assume B ≠ Ok Key) →
  lookupMinMax R' Key Assume = lookupMinMax R Key Assume.
Proof.
  revert R. induction BOIs as [|B rest IH]; intros R; simpl.
  - by intros [= <-].
  - intros (R1 & HB & Hrest)%bind_Ok Hkeys.
    rewrite (IH R1 Hrest) by (intros B' HB'; apply Hkeys; by right).
    destruct (fillMapFromAssume_body_effect _ _ _ _ HB)
      as (K & HK & Hother & _).
    apply Hother. intros ->. by apply (Hkeys B); [left|].
Qed.


Lemma bundleAction_built (Assume : Instruction) (tag : string)
    (ins tl : list Value) (start : Z) :
  0 ≤ start →
  drop (Z.to_nat start) (inst_operands Assume) = ins ++ tl →
  Z.of_nat (length ins) < 2 ^ 32 →
  bundleAction Assume
    {| BOI_Tag := tag; BOI_Begin := start;
       BOI_End := start + Z.of_nat (length ins) |}
  = actionOfInputs (tag, ins).
Proof.
  intros Hstart Hops Hlen.
  assert (Hop : ∀ i : nat,
    inst_operands Assume !! Z.to_nat (start + Z.of_nat i) = (ins ++ tl) !! i).
  { intros i. rewrite <- Hops, lookup_drop. f_equal. lia. }
  pose proof (Hop 0%nat) as H0. pose proof (Hop 1%nat) as H1.
  change (Z.of_nat 0) with 0 in H0. change (Z.of_nat 1) with 1 in H1.
  unfold bundleAction, bundleKey, bundleVal, bundleArgument,
    getValueFromBundleOpInfo, bundleHasArgument, actionOfInputs,
    ABA_WasOn, ABA_Argument.
  simpl. rewrite Z.add_simpl_l, Z.mod_small, H0, H1 by lia.
  destruct ins as [|V [|C rest]]; simpl.
  - destruct (decide (getAttrKindFromName tag = Attribute_None)) as [Hk|Hk].
    + by rewrite !bool_decide_eq_true_2.
    + rewrite (bool_decide_eq_false_2 (_ ∧ _)) by (by intros [_ ?]).
      by rewrite bool_decide_eq_false_2.
  - done.
  - rewrite !bool_decide_eq_true_2 by lia. simpl.
    by destruct (getZExtValue C).
Qed.

Lemma bundleActions_built (Assume : Instruction)
    (bs : list (string * list Value)) (tl : list Value) (start : Z) :
  0 ≤ start →
  drop (Z.to_nat start) (inst_operands Assume) = concat (bs.*2) ++ tl →
  Forall (λ b, Z.of_nat (length b.2) < 2 ^ 32) bs →
  bundleActions Assume (layoutBundles start bs) = actionsOfInputs bs.
Proof.
  revert start. induction bs as [|[tag ins] bs IH]; intros start Hstart Hops Hbs;
    [done|].
  apply Forall_cons in Hbs as [Hb Hbs]. simpl in Hb.
  rewrite fmap_cons in Hops. cbn [concat snd] in Hops.
  rewrite <- app_assoc in Hops.
  cbn [layoutBundles bundleActions actionsOfInputs].
  rewrite (bundleAction_built Assume tag ins _ start Hstart Hops Hb).
  rewrite (IH (start + Z.of_nat (length ins))); [done|lia| |done].
  replace (Z.to_nat (start + Z.of_nat (length ins)))
    with (Z.to_nat start + length ins)%nat by lia.
  by rewrite <- drop_drop, Hops, drop_app_length.
Qed.

Lemma fillMapFromAssume_built (addr : nat) (cond callee : Value)
    (bs : list (string * list Value))
    (Result : gmap (option Value * AttrKind) (gmap nat MinMax)) :
  Forall (λ b, Z.of_nat (length b.2) < 2 ^ 32) bs →
  fillMapFromAssume (mkAssume addr cond callee bs) Result
  = acts ← actionsOfInputs bs; Ok (foldl (applyAction addr) Result acts).
Proof.
  intros Hbs. unfold fillMapFromAssume. simpl.
  rewrite fillMapFromAssume_loop_actions. simpl.
  by rewrite (bundleActions_built _ bs [callee] 1).
Qed.

Lemma actionsOfInputs_app bs1 b bs2 :
  actionsOfInputs (bs1 ++ b :: bs2)
  = acts1 ← actionsOfInputs bs1;
    act ← actionOfInputs b;
    acts2 ← actionsOfInputs bs2;
    Ok (acts1 ++ act :: acts2).
Proof.
  induction bs1 as [|b1 bs1 IH]; simpl.
  - destruct (actionOfInputs b); simpl; [|done].
    by destruct (actionsOfInputs bs2).
  - destruct (actionOfInputs b1); simpl; [|done]. rewrite IH.
    destruct (actionsOfInputs bs1); simpl; [|done].
    destruct (actionOfInputs b); simpl; [|done].
    by destruct (actionsOfInputs bs2).
Qed.

(** C6 (amended): a bundle with a non-empty key and no Argument slot sets the
    pair of its key and assumption to (0, 0) when [fillMapFromAssume]
    reaches it, and the call returns that pair when no later bundle has the
    same key.  With the literal argument 0 in the place of the missing one
    the call returns the same map, provided that the pair is absent or
    (0, 0) when the bundle is reached. *)
Theorem fillMapFromAssume_degenerate :
  (∀ (AssumeCI : Instruction)
     (Result Result' : gmap (option Value * AttrKind) (gmap nat MinMax))
     (pre post : list BundleOpInfo) (Bundles : BundleOpInfo)
     (Key : option Value * AttrKind),
     fillMapFromAssume AssumeCI Result = Ok Result' →
     bundle_op_infos AssumeCI = pre ++ Bundles :: post →
     bundleKey AssumeCI Bundles = Ok Key →
     ¬ (Key.1 = None ∧ Key.2 = Attribute_None) →
     bundleHasArgument Bundles ABA_Argument = false →
     ∃ R1 R2,
       fillMapFromAssume_loop AssumeCI pre Result = Ok R1 ∧
       fillMapFromAssume_body AssumeCI Bundles R1 = Ok R2 ∧
       fillMapFromAssume_loop AssumeCI post R2 = Ok Result' ∧
       lookupMinMax R2 Key AssumeCI = Some {| Min := 0; Max := 0 |} ∧
       ((∀ B, B ∈ post → bundleKey AssumeCI B ≠ Ok Key) →
        lookupMinMax Result' Key AssumeCI = Some {| Min := 0; Max := 0 |})) ∧
  (∀ (addr : nat) (cond callee : Value) (bs1 bs2 : list (string * list Value))
     (tag : string) (V : Value) (bits : N)
     (Result : gmap (option Value * AttrKind) (gmap nat MinMax)),
     Forall (λ b, Z.of_nat (length b.2) < 2 ^ 32) (bs1 ++ bs2) →
     let Key := (Some V, getAttrKindFromName tag) in
     let Before := mkAssume addr cond callee bs1 in
     let Bare := mkAssume addr cond callee (bs1 ++ (tag, [V]) :: bs2) in
     let Zero :=
       mkAssume addr cond callee
         (bs1 ++ (tag, [V; ConstantInt bits 0]) :: bs2) in
     (∀ R1, fillMapFromAssume Before Result = Ok R1 →
            lookupMinMax R1 Key Before = None ∨
            lookupMinMax R1 Key Before = Some {| Min := 0; Max := 0 |}) →
     fillMapFromAssume Bare Result = fillMapFromAssume Zero Result).
Proof.
  split.
  - intros AssumeCI Result Result' pre post Bundles Key Hfill Hsplit HKey Hne
      Harg.
    unfold fillMapFromAssume in Hfill.
    apply bind_Ok in Hfill as (_ & _ & (_ & _ & Hloop)%bind_Ok).
    rewrite Hsplit in Hloop.
    apply fillMapFromAssume_loop_app in Hloop
      as (R1 & R2 & Hpre & HB & Hpost).
    exists R1, R2. split_and!; [done..| |].
    + destruct (fillMapFromAssume_body_effect _ _ _ _ HB)
        as (K & HK & _ & Hown).
      rewrite HKey in HK. injection HK as <-.
      rewrite bool_decide_eq_false_2, Harg in Hown by done. done.
    + intros Hpostkeys.
      rewrite (fillMapFromAssume_loop_other_key _ Key _ _ _ Hpost Hpostkeys).
      destruct (fillMapFromAssume_body_effect _ _ _ _ HB)
        as (K & HK & _ & Hown).
      rewrite HKey in HK. injection HK as <-.
      rewrite bool_decide_eq_false_2, Harg in Hown by done. done.
  - intros addr cond callee bs1 bs2 tag V bits Result Hlen Key Before Bare Zero
      Hbefore.
    apply Forall_app in Hlen as [Hlen1 Hlen2].
    assert (H2 : (2 : Z) < 2 ^ 32) by done.
    assert (H1 : (1 : Z) < 2 ^ 32) by done.
    unfold Bare, Zero, Before in *.
    rewrite fillMapFromAssume_built in Hbefore by done.
    rewrite !fillMapFromAssume_built
      by (apply Forall_app; split; [done|]; by constructor).
    rewrite !actionsOfInputs_app.
    destruct (actionsOfInputs bs1) as [acts1|]; simpl; [|done].
    destruct (actionsOfInputs bs2) as [acts2|]; simpl; [|done].
    specialize (Hbefore _ eq_refl). unfold lookupMinMax in Hbefore.
    simpl in Hbefore.
    rewrite !foldl_app. cbn [foldl].
    set (R1 := foldl (applyAction addr) Result acts1) in *.
    assert (Hsame : applyAction addr R1 (ActReset Key)
                    = applyAction addr R1 (ActObserve Key (0 `mod` 2 ^ 32))).
    { unfold applyAction. simpl. fold Key.
      by destruct Hbefore as [-> | ->]. }
    unfold Key in Hsame. by rewrite Hsame.
Qed.

Lemma bundleAction_observe Assume V tag v start :
  inst_operands Assume !! Z.to_nat start = Some V →
  inst_operands Assume !! Z.to_nat (start + 1) = Some (ConstantInt 64 v) →
  0 ≤ v < 2 ^ 32 →
  bundleAction Assume
    {| BOI_Tag := tag; BOI_Begin := start; BOI_End := start + 2 |}
  = Ok (ActObserve (Some V, getAttrKindFromName tag) v).
Proof.
  intros H0 H1 Hv.
  unfold bundleAction, bundleKey, bundleVal, bundleArgument,
    getValueFromBundleOpInfo, bundleHasArgument, ABA_WasOn, ABA_Argument.
  simpl.
  rewrite Z.add_simpl_l, Z.add_0_r, H0, H1. simpl.
  rewrite bool_decide_eq_true_2 by lia. simpl.
  by rewrite Z.mod_small by lia.
Qed.

Lemma bundleActions_layout Assume V tag vs start tl :
  0 ≤ start →
  drop (Z.to_nat start) (inst_operands Assume)
  = concat ((λ v, [V; ConstantInt 64 v]) <$> vs) ++ tl →
  Forall (λ v, 0 ≤ v < 2 ^ 32) vs →
  bundleActions Assume
    (layoutBundles start ((λ v, (tag, [V; ConstantInt 64 v])) <$> vs))
  = Ok ((λ v, ActObserve (Some V, getAttrKindFromName tag) v) <$> vs).
Proof.
  revert start. induction vs as [|v vs IH]; intros start Hstart Hops Hvs;
    [done|].
  apply Forall_cons in Hvs as [Hv Hvs].
  rewrite !fmap_cons in *. cbn [concat app] in Hops.
  cbn [layoutBundles bundleActions length].
  change (Z.of_nat 2) with 2.
  rewrite (bundleAction_observe Assume V tag v); [|..|done].
  - rewrite (IH (start + 2)); [done|lia| |done].
    replace (Z.to_nat (start + 2)) with (Z.to_nat start + 2)%nat by lia.
    by rewrite <- drop_drop, Hops.
  - rewrite <- (Nat.add_0_r (Z.to_nat start)), <- lookup_drop.
    by rewrite Hops.
  - replace (Z.to_nat (start + 1)) with (Z.to_nat start + 1)%nat by lia.
    rewrite <- lookup_drop. by rewrite Hops.
Qed.

Lemma foldl_applyEntry_Observe Key vs x :
  foldl (applyEntry Key) x (ActObserve Key <$> vs)
  = foldl (λ acc v, Some (widen v acc)) x vs.
Proof.
  revert x. induction vs as [|v vs IH]; intros x; [done|].
  simpl. rewrite IH. unfold applyEntry. simpl.
  by rewrite bool_decide_eq_true_2.
Qed.

Lemma foldl_widen_Permutation vs vs' x :
  vs ≡ₚ vs' →
  foldl (λ acc v, Some (widen v acc)) x vs
  = foldl (λ acc v, Some (widen v acc)) x vs'.
Proof.
  intros Hperm. revert x.
  induction Hperm as [|v vs vs' _ IH|v w vs|vs vs' vs'' _ IH1 _ IH2];
    intros x; simpl.
  - done.
  - apply IH.
  - f_equal. f_equal. destruct x as [MM|]; simpl; f_equal; lia.
  - by rewrite IH1.
Qed.

Lemma fillMapFromAssume_mkAssume_observe (addr : nat) (cond callee : Value)
    (tag : string) (V : Value) (vs : list Z)
    (Result : gmap (option Value * AttrKind) (gmap nat MinMax)) :
  Forall (λ v, 0 ≤ v < 2 ^ 32) vs →
  let Assume :=
    mkAssume addr cond callee ((λ v, (tag, [V; ConstantInt 64 v])) <$> vs) in
  let Key := (Some V, getAttrKindFromName tag) in
  ∃ Result',
    fillMapFromAssume Assume Result = Ok Result' ∧
    lookupMinMax Result' Key Assume
    = foldl (λ acc v, Some (widen v acc)) (lookupMinMax Result Key Assume) vs.
Proof.
  intros Hvs Assume Key.
  assert (Hacts : bundleActions Assume (bundle_op_infos Assume)
                  = Ok (ActObserve Key <$> vs)).
  { apply (bundleActions_layout Assume V tag vs 1 [callee]); [lia| |done].
    simpl. by rewrite <- list_fmap_compose. }
  eexists. split.
  - apply fillMapFromAssume_Ok. split; [done|]. eauto.
  - by rewrite lookupMinMax_foldl_applyAction, foldl_applyEntry_Observe.
Qed.

(** C4: a second run of [fillMapFromAssume] over the same assumption leaves
    the map unchanged, the pair recorded for a key whose bundles all carry
    an argument does not depend on the order of the bundles, and the
    arguments 5, 2 and 9 in any order give the pair (2, 9). *)
Theorem fillMapFromAssume_idempotent_order_insensitive :
  (∀ (AssumeCI : Instruction)
     (Result Result1 : gmap (option Value * AttrKind) (gmap nat MinMax)),
     fillMapFromAssume AssumeCI Result = Ok Result1 →
     fillMapFromAssume AssumeCI Result1 = Ok Result1) ∧
  (∀ (addr : nat) (cond callee : Value) (tag : string) (V : Value)
     (vs vs' : list Z)
     (Result : gmap (option Value * AttrKind) (gmap nat MinMax)),
     vs ≡ₚ vs' → Forall (λ v, 0 ≤ v < 2 ^ 32) vs →
     let mk l :=
       mkAssume addr cond callee ((λ v, (tag, [V; ConstantInt 64 v])) <$> l) in
     let Key := (Some V, getAttrKindFromName tag) in
     ∃ R1 R2,
       fillMapFromAssume (mk vs) Result = Ok R1 ∧
       fillMapFromAssume (mk vs') Result = Ok R2 ∧
       lookupMinMax R1 Key (mk vs) = lookupMinMax R2 Key (mk vs')) ∧
  (∀ (addr : nat) (cond callee : Value) (tag : string) (V : Value)
     (vs : list Z)
     (Result : gmap (option Value * AttrKind) (gmap nat MinMax)),
     vs ≡ₚ [5; 2; 9] →
     let Assume :=
       mkAssume addr cond callee ((λ v, (tag, [V; ConstantInt 64 v])) <$> vs) in
     let Key := (Some V, getAttrKindFromName tag) in
     lookupMinMax Result Key Assume = None →
     ∃ Result',
       fillMapFromAssume Assume Result = Ok Result' ∧
       lookupMinMax Result' Key Assume = Some {| Min := 2; Max := 9 |}).
Proof.
  split_and!.
  - intros AssumeCI Result Result1
      (HA & acts & Hacts & ->)%fillMapFromAssume_Ok.
    apply fillMapFromAssume_Ok. split; [done|].
    exists acts. split; [done|]. by rewrite foldl_applyAction_idemp.
  - intros addr cond callee tag V vs vs' Result Hperm Hvs mk Key.
    assert (Hvs' : Forall (λ v, 0 ≤ v < 2 ^ 32) vs') by by rewrite <- Hperm.
    destruct (fillMapFromAssume_mkAssume_observe addr cond callee tag V vs
                Result Hvs) as (R1 & HR1 & HL1).
    destruct (fillMapFromAssume_mkAssume_observe addr cond callee tag V vs'
                Result Hvs') as (R2 & HR2 & HL2).
    exists R1, R2. split_and!; [done..|].
    unfold mk, Key. rewrite HL1, HL2. by apply foldl_widen_Permutation.
  - intros addr cond callee tag V vs Result Hperm Assume Key Hnone.
    assert (Hvs : Forall (λ v, 0 ≤ v < 2 ^ 32) vs).
    { rewrite Hperm. repeat constructor; lia. }
    destruct (fillMapFromAssume_mkAssume_observe addr cond callee tag V vs
                Result Hvs) as (R1 & HR1 & HL1).
    exists R1. split; [done|]. unfold Assume, Key. rewrite HL1.
    rewrite (foldl_widen_Permutation _ _ _ Hperm).
    fold Assume Key. by rewrite Hnone.
Qed.

(** ** hasAttributeInAssume *)

Lemma hasAttributeInAssume_loop_rejected Assume IsOn AttrName ArgVal B rest :
  bundleRejected Assume IsOn AttrName B →
  hasAttributeInAssume_loop Assume IsOn AttrName ArgVal (B :: rest)
  = hasAttributeInAssume_loop Assume IsOn AttrName ArgVal rest.
Proof.
  unfold bundleRejected, ABA_WasOn.
  intros [Htag | (on & -> & Hon)]; simpl.
  - by rewrite bool_decide_eq_true_2.
  - unfold ABA_WasOn. case_bool_decide; [done|].
    destruct Hon as [Hno | (V & HV & Hne)].
    + unfold bundleHasArgument in Hno. apply bool_decide_eq_false in Hno.
      by rewrite (bool_decide_eq_true_2 (_ ≤ 0)) by (by apply Z.nlt_ge).
    + apply getValueFromBundleOpInfo_Ok in HV as HV'.
      destruct HV' as [Hhas%bool_decide_eq_true _].
      rewrite (bool_decide_eq_false_2 (_ ≤ 0)) by (by apply Z.lt_nge).
      rewrite HV. simpl.
      by rewrite bool_decide_eq_true_2.
Qed.

Lemma hasAttributeInAssume_loop_matches Assume IsOn AttrName old B rest z :
  bundleMatches Assume IsOn AttrName B →
  bundleArgument Assume B = Ok z →
  hasAttributeInAssume_loop Assume IsOn AttrName (Some old) (B :: rest)
  = Ok (true, Some z).
Proof.
  unfold bundleMatches, bundleArgument, ABA_WasOn, ABA_Argument.
  intros [Htag Hon] (C & HC & Hz)%bind_Ok. simpl.
  unfold ABA_WasOn, ABA_Argument.
  rewrite bool_decide_eq_false_2 by (by intros ?).
  apply getValueFromBundleOpInfo_Ok in HC as HC'.
  destruct HC' as [Harg%bool_decide_eq_true _].
  assert (Hskip : (match IsOn with
                   | None => Ok false
                   | Some on =>
                       if bool_decide
                            ((BOI_End B - BOI_Begin B) `mod` 2 ^ 32 ≤ 0)
                       then Ok true
                       else
                         V ← getValueFromBundleOpInfo Assume B 0;
                         Ok (bool_decide (on ≠ V))
                   end) = Ok false).
  { destruct IsOn as [on|]; [|done]. specialize (Hon on eq_refl).
    apply getValueFromBundleOpInfo_Ok in Hon as Hon'.
    destruct Hon' as [Hhas%bool_decide_eq_true _].
    rewrite (bool_decide_eq_false_2 (_ ≤ 0)) by (by apply Z.lt_nge).
    rewrite Hon. simpl.
    by rewrite bool_decide_eq_false_2 by (by intros ?). }
  rewrite Hskip. simpl. rewrite bool_decide_eq_true_2 by done. simpl.
  rewrite HC. simpl. by rewrite Hz.
Qed.

(** C3: [hasAttributeInAssume] answers with the first bundle, in the stored
    order, that has the tag and satisfies the WasOn constraint: it returns
    true and writes the Argument of that bundle, whatever the later bundles
    of the same tag hold. *)
Theorem hasAttributeInAssume_first_match (AssumeCI : Instruction)
    (IsOn : option Value) (AttrName : string) (old z : Z)
    (pre post : list BundleOpInfo) (B : BundleOpInfo) :
  isAssume AssumeCI = true →
  isExistingAttribute AttrName = true →
  doesAttrKindHaveArgument (getAttrKindFromName AttrName) = true →
  bundle_op_infos AssumeCI = pre ++ B :: post →
  Forall (bundleRejected AssumeCI IsOn AttrName) pre →
  bundleMatches AssumeCI IsOn AttrName B →
  bundleArgument AssumeCI B = Ok z →
  hasAttributeInAssume AssumeCI IsOn AttrName (Some old) = Ok (true, Some z).
Proof.
  intros HA Hex Harg Hsplit Hpre HB Hz. unfold hasAttributeInAssume.
  rewrite (isAssume_intrinsic _ HA), HA, Hex, Harg, orb_true_r. simpl.
  rewrite Hsplit. rewrite bool_decide_eq_false_2 by (by destruct pre).
  clear Hsplit. induction Hpre as [|B0 pre HB0 _ IH]; simpl app.
  - by apply hasAttributeInAssume_loop_matches.
  - by rewrite hasAttributeInAssume_loop_rejected.
Qed.

(** ** Knowledge search *)

Lemma candidate_accepted (AttrKinds : list AttrKind)
    (accept : bool) (RK : RetainedKnowledge) :
  RK_bool RK && is_contained AttrKinds (RK_AttrKind RK) && accept = true →
  RK_AttrKind RK ≠ Attribute_None ∧ RK_AttrKind RK ∈ AttrKinds.
Proof.
  intros [[Hb Hc]%andb_true_iff _]%andb_true_iff.
  unfold RK_bool, is_contained in *.
  by apply bool_decide_eq_true in Hb, Hc.
Qed.

Lemma getKnowledgeForValue_indexed_Ok AttrKinds Filter Elems RK :
  getKnowledgeForValue_indexed AttrKinds Filter Elems = Ok RK →
  RK = RK_none ∨
  (RK_AttrKind RK ≠ Attribute_None ∧ RK_AttrKind RK ∈ AttrKinds).
Proof.
  induction Elems as [|Elem rest IH]; simpl.
  - intros [= <-]. by left.
  - destruct (RE_Assume Elem) as [Inst|]; simpl; [|done].
    destruct (bool_decide (is_Some (inst_intrinsic Inst))); simpl; [|done].
    case_bool_decide; [done|].
    destruct (bundle_op_infos Inst !! _) as [BOI|]; [|done].
    destruct (getKnowledgeFromBundle Inst BOI) as [RK'|]; simpl; [|done].
    destruct (_ && _ && _) eqn:Hc; [|done].
    intros [= <-]. right. by eapply candidate_accepted.
Qed.

Lemma getKnowledgeForValue_uses_Ok AttrKinds Filter Uses RK :
  getKnowledgeForValue_uses AttrKinds Filter Uses = Ok RK →
  RK = RK_none ∨
  (RK_AttrKind RK ≠ Attribute_None ∧ RK_AttrKind RK ∈ AttrKinds).
Proof.
  induction Uses as [|U rest IH]; simpl.
  - intros [= <-]. by left.
  - destruct (getBundleFromUse U) as [[BOI|]|]; simpl; [|done..].
    destruct (getKnowledgeFromBundle (U_user U) BOI) as [RK'|]; simpl; [|done].
    destruct (_ && _ && _) eqn:Hc; [|done].
    intros [= <-]. right. by eapply candidate_accepted.
Qed.

Lemma getKnowledgeForValue_Ok uses V AttrKinds AC Filter RK :
  getKnowledgeForValue uses V AttrKinds AC Filter = Ok RK →
  RK = RK_none ∨
  (RK_AttrKind RK ≠ Attribute_None ∧ RK_AttrKind RK ∈ AttrKinds).
Proof.
  destruct AC as [assumptionsFor|]; simpl.
  - apply getKnowledgeForValue_indexed_Ok.
  - apply getKnowledgeForValue_uses_Ok.
Qed.

(** C5: what [getKnowledgeForValue] returns, on the indexed path and on the
    use-scan path, is the none record or has a kind of the wanted set; it
    never has a kind outside the set, whatever facts the scan meets first. *)
Theorem getKnowledgeForValue_kind_filter (uses : Value → list Use)
    (V : Value) (AttrKinds : list AttrKind)
    (AC : option (Value → list ResultElem))
    (Filter : RetainedKnowledge → Instruction → BundleOpInfo → bool)
    (RK : RetainedKnowledge) :
  getKnowledgeForValue uses V AttrKinds AC Filter = Ok RK →
  (RK = RK_none ∨ RK_AttrKind RK ∈ AttrKinds) ∧
  ∀ KindB, KindB ∉ AttrKinds → KindB ≠ Attribute_None →
           RK_AttrKind RK ≠ KindB.
Proof.
  intros [-> | [_ Hin]]%getKnowledgeForValue_Ok.
  - split; [by left|]. intros KindB _ HB. simpl. congruence.
  - split; [by right|]. intros KindB HB _ Heq. apply HB. by rewrite <- Heq.
Qed.

Lemma getKnowledgeFromUse_Ok U AttrKinds RK :
  getKnowledgeFromUse U AttrKinds = Ok RK →
  RK = RK_none ∨ RK_AttrKind RK ∈ AttrKinds.
Proof.
  unfold getKnowledgeFromUse.
  destruct (getBundleFromUse U) as [[BOI|]|]; simpl; [| |done].
  - destruct (getKnowledgeFromBundle (U_user U) BOI) as [RK'|]; simpl; [|done].
    destruct (existsb _ AttrKinds) eqn:Hex; intros [= <-]; [|by left].
    right. apply existsb_exists in Hex as (K & HK%list_elem_of_In & HKe).
    apply bool_decide_eq_true in HKe. by subst.
  - intros [= <-]. by left.
Qed.

(** C10 (amended): [getKnowledgeForValue] discards a decoded knowledge of the
    none kind before it tests the wanted kinds, so that it returns the none
    record or a knowledge of another kind, even with the none kind in the
    wanted set.  [getKnowledgeFromUse] returns the none record or the decoded
    knowledge when its kind is wanted; its kind is not the none kind when
    the none kind is not wanted. *)
Theorem knowledge_queries_none_kind :
  (∀ (uses : Value → list Use) (V : Value) (AttrKinds : list AttrKind)
     (AC : option (Value → list ResultElem))
     (Filter : RetainedKnowledge → Instruction → BundleOpInfo → bool)
     (RK : RetainedKnowledge),
     getKnowledgeForValue uses V AttrKinds AC Filter = Ok RK →
     RK = RK_none ∨ RK_AttrKind RK ≠ Attribute_None) ∧
  (∀ (U : Use) (AttrKinds : list AttrKind) (RK : RetainedKnowledge),
     getKnowledgeFromUse U AttrKinds = Ok RK →
     (RK = RK_none ∨ RK_AttrKind RK ∈ AttrKinds) ∧
     (Attribute_None ∉ AttrKinds →
      RK = RK_none ∨ RK_AttrKind RK ≠ Attribute_None)).
Proof.
  split.
  - intros uses V AttrKinds AC Filter RK
      [-> | [Hne _]]%getKnowledgeForValue_Ok; [by left | by right].
  - intros U AttrKinds RK HRK%getKnowledgeFromUse_Ok. split; [done|].
    intros Hnot. destruct HRK as [-> | Hin]; [by left|].
    right. intros Heq. apply Hnot. by rewrite <- Heq.
Qed.

Lemma getKnowledgeForValue_uses_candidates AttrKinds Filter Uses cs :
  usesCandidates Uses = Ok cs →
  getKnowledgeForValue_uses AttrKinds Filter Uses
  = firstAccepted AttrKinds Filter cs.
Proof.
  revert cs. induction Uses as [|U rest IH]; intros cs; simpl.
  - by intros [= <-].
  - intros (Bundle & HB & (cs' & Hcs & [= <-])%bind_Ok)%bind_Ok.
    rewrite HB. simpl. destruct Bundle as [BOI|]; simpl; [|by apply IH].
    destruct (getKnowledgeFromBundle (U_user U) BOI) as [RK|]; simpl; [|done].
    fold (candidateAccepted AttrKinds Filter RK (U_user U) BOI).
    by rewrite (IH cs').
Qed.

Lemma getKnowledgeForValue_indexed_candidates AttrKinds Filter Elems cs :
  elemsCandidates Elems = Ok cs →
  getKnowledgeForValue_indexed AttrKinds Filter Elems
  = firstAccepted AttrKinds Filter cs.
Proof.
  revert cs. induction Elems as [|Elem rest IH]; intros cs; simpl.
  - by intros [= <-].
  - destruct (RE_Assume Elem) as [Inst|]; simpl; [|by apply IH].
    destruct (bool_decide (is_Some (inst_intrinsic Inst))); simpl; [|done].
    destruct (bool_decide (RE_Index Elem = ExprResultIdx)); [by apply IH|].
    destruct (bundle_op_infos Inst !! _) as [BOI|]; [|done].
    intros (cs' & Hcs & [= <-])%bind_Ok. simpl.
    destruct (getKnowledgeFromBundle Inst BOI) as [RK|]; simpl; [|done].
    fold (candidateAccepted AttrKinds Filter RK Inst BOI).
    by rewrite (IH cs').
Qed.

Lemma acceptedAs_not_none AttrKinds Filter c RK :
  acceptedAs AttrKinds Filter c RK → RK ≠ RK_none.
Proof.
  intros [_ Hacc] ->. unfold candidateAccepted in Hacc.
  apply andb_true_iff in Hacc as [[Hb%bool_decide_eq_true _]%andb_true_iff _].
  by apply Hb.
Qed.

Lemma firstAccepted_Ok_inv AttrKinds Filter cs RK :
  firstAccepted AttrKinds Filter cs = Ok RK →
  (RK = RK_none ∧ ∀ c rk, c ∈ cs → ¬ acceptedAs AttrKinds Filter c rk) ∨
  (∃ c, c ∈ cs ∧ acceptedAs AttrKinds Filter c RK).
Proof.
  induction cs as [|[Inst BOI] cs IH]; simpl.
  - intros [= <-]. left. split; [done|]. by intros c rk Hc%elem_of_nil.
  - intros (RK0 & HRK0 & Hrest)%bind_Ok.
    destruct (candidateAccepted AttrKinds Filter RK0 Inst BOI) eqn:Hacc.
    + injection Hrest as <-. right. exists (Inst, BOI). split; [left | done].
    + destruct (IH Hrest) as [[-> Hnone] | (c & Hc & Ha)].
      * left. split; [done|]. intros c rk [-> | Hc]%elem_of_cons; [|eauto].
        intros [Hrk Ha]. simpl in *. congruence.
      * right. exists c. split; [by right | done].
Qed.

Lemma firstAccepted_decodable AttrKinds Filter cs :
  Forall (λ c, ∃ RK, getKnowledgeFromBundle c.1 c.2 = Ok RK) cs →
  ∃ RK, firstAccepted AttrKinds Filter cs = Ok RK.
Proof.
  induction 1 as [|[Inst BOI] cs [RK HRK] _ [RK' Hrest]]; simpl; [by eexists|].
  simpl in HRK. rewrite HRK. simpl.
  destruct (candidateAccepted AttrKinds Filter RK Inst BOI); by eexists.
Qed.

(** C9 (amended): when the entries of the assumption index of the value and
    its use-list name the same bundles, in whatever order, the indexed path
    and the use-scan path of [getKnowledgeForValue] both return the none
    record or neither does, for every wanted set and every filter; they
    return knowledge of the same kind and argument when all the candidates
    that the query accepts carry the same kind and argument, and the same
    record when the two orders agree.  Both paths return when every
    candidate decodes. *)
Theorem getKnowledgeForValue_indexed_fallback (uses : Value → list Use)
    (assumptionsFor : Value → list ResultElem) (V : Value)
    (AttrKinds : list AttrKind)
    (Filter : RetainedKnowledge → Instruction → BundleOpInfo → bool)
    (ce cu : list (Instruction * BundleOpInfo)) :
  elemsCandidates (assumptionsFor V) = Ok ce →
  usesCandidates (uses V) = Ok cu →
  (∀ c, c ∈ ce ↔ c ∈ cu) →
  (Forall (λ c, ∃ RK, getKnowledgeFromBundle c.1 c.2 = Ok RK) ce →
   ∃ RK1 RK2,
     getKnowledgeForValue uses V AttrKinds (Some assumptionsFor) Filter
     = Ok RK1 ∧
     getKnowledgeForValue uses V AttrKinds None Filter = Ok RK2) ∧
  (∀ RK1 RK2,
     getKnowledgeForValue uses V AttrKinds (Some assumptionsFor) Filter
     = Ok RK1 →
     getKnowledgeForValue uses V AttrKinds None Filter = Ok RK2 →
     (RK1 = RK_none ↔ RK2 = RK_none) ∧
     ((∀ c c' rk rk',
         c ∈ ce → c' ∈ ce →
         acceptedAs AttrKinds Filter c rk →
         acceptedAs AttrKinds Filter c' rk' →
         RK_AttrKind rk = RK_AttrKind rk' ∧
         RK_ArgValue rk = RK_ArgValue rk') →
      RK_AttrKind RK1 = RK_AttrKind RK2 ∧
      RK_ArgValue RK1 = RK_ArgValue RK2) ∧
     (ce = cu → RK1 = RK2)).
Proof.
  intros Hce Hcu Hperm. unfold getKnowledgeForValue.
  rewrite (getKnowledgeForValue_indexed_candidates _ _ _ _ Hce).
  rewrite (getKnowledgeForValue_uses_candidates _ _ _ _ Hcu).
  split.
  { intros Hdec.
    assert (Hdec' : Forall (λ c, ∃ RK, getKnowledgeFromBundle c.1 c.2 = Ok RK)
                           cu).
    { rewrite Forall_forall in Hdec. apply Forall_forall.
      intros c Hc. by apply Hdec, Hperm. }
    destruct (firstAccepted_decodable AttrKinds Filter ce Hdec) as [RK1 H1].
    destruct (firstAccepted_decodable AttrKinds Filter cu Hdec') as [RK2 H2].
    by exists RK1, RK2. }
  intros RK1 RK2 H1 H2.
  pose proof (firstAccepted_Ok_inv _ _ _ _ H1) as Hc1.
  pose proof (firstAccepted_Ok_inv _ _ _ _ H2) as Hc2.
  split_and!.
  - destruct Hc1 as [[-> Hn1] | (c1 & Hin1 & Ha1)];
      destruct Hc2 as [[-> Hn2] | (c2 & Hin2 & Ha2)].
    + done.
    + exfalso. apply (Hn1 c2 RK2); [by apply Hperm | done].
    + exfalso. apply (Hn2 c1 RK1); [by apply Hperm | done].
    + split; intros Heq; exfalso.
      * by apply (acceptedAs_not_none _ _ _ _ Ha1).
      * by apply (acceptedAs_not_none _ _ _ _ Ha2).
  - intros Hagree.
    destruct Hc1 as [[-> Hn1] | (c1 & Hin1 & Ha1)];
      destruct Hc2 as [[-> Hn2] | (c2 & Hin2 & Ha2)].
    + done.
    + exfalso. apply (Hn1 c2 RK2); [by apply Hperm | done].
    + exfalso. apply (Hn2 c1 RK1); [by apply Hperm | done].
    + apply (Hagree c1 c2); [done | by apply Hperm | done..].
  - intros ->. congruence.
Qed.

End Properties.

(** * Examples and counterexamples *)

Module Examples.
Import Sample.
#[local] Existing Instance registry.


Lemma lookupMinMax_empty Key Assume : lookupMinMax ∅ Key Assume = None.
Proof. unfold lookupMinMax. by rewrite lookup_empty. Qed.

(** C1 (as stated) fails: the use of [%p] in the WasOn slot of
    ["align"(%p, i64 8)] resolves to the bundle, not to null. *)
Lemma getBundleFromUse_WasOn_counterexample :
  let B := {| BOI_Tag := "align"; BOI_Begin := 1; BOI_End := 3 |} in
  let UV := {| U_user := assume_align; U_operandNo := 1 |} in
  isAssume assume_align = true ∧
  B ∈ bundle_op_infos assume_align ∧
  getValueFromBundleOpInfo assume_align B ABA_WasOn = Ok p ∧
  getValueFromBundleOpInfo assume_align B ABA_Argument = Ok (i64 8) ∧
  Use_get UV = Some p ∧
  getBundleFromUse UV = Ok (Some B) ∧
  getBundleFromUse UV ≠ Ok None.
Proof.
  simpl. split_and!;
    [reflexivity | apply list_elem_of_here | reflexivity.. | discriminate].
Qed.

(** C1: the uses of the operands of [assume_two_kinds]: the condition, the
    two slots of ["align"(%p, i64 8)], the slot of ["nonnull"(%p)] and the
    callee. *)
Lemma getBundleFromUse_assume_witness :
  let Ba := {| BOI_Tag := "align"; BOI_Begin := 1; BOI_End := 3 |} in
  let Bn := {| BOI_Tag := "nonnull"; BOI_Begin := 3; BOI_End := 4 |} in
  getBundleFromUse {| U_user := assume_two_kinds; U_operandNo := 0 |}
  = Ok None ∧
  getBundleFromUse use_align = Ok (Some Ba) ∧
  getBundleFromUse {| U_user := assume_two_kinds; U_operandNo := 2 |}
  = Ok (Some Ba) ∧
  getBundleFromUse use_nonnull = Ok (Some Bn) ∧
  getBundleFromUse {| U_user := assume_two_kinds; U_operandNo := 4 |}
  = Fatal.
Proof.
  intros Ba Bn.
  destruct (getBundleFromUse_assume assume_two_kinds eq_refl eq_refl)
    as (Hall & Hwas & Harg).
  assert (HBa : Ba ∈ bundle_op_infos assume_two_kinds)
    by apply list_elem_of_here.
  assert (HBn : Bn ∈ bundle_op_infos assume_two_kinds)
    by (apply list_elem_of_further, list_elem_of_here).
  split_and!.
  - exact (proj1 (Hall 0%nat) eq_refl).
  - exact (proj2 (Hwas Ba p HBa eq_refl)).
  - exact (proj2 (Harg Ba (i64 8) HBa eq_refl)).
  - exact (proj2 (Hwas Bn p HBn eq_refl)).
  - refine (proj2 (proj2 (Hall 4%nat) _) _); [discriminate|].
    repeat constructor; simpl; lia.
Defined.



(** [unsigned Val] keeps the low 32 bits of the argument: 2^32 + 5 is
    recorded as (5, 5). *)
Example fillMapFromAssume_wide_argument :
  bundleArgument assume_wide
    {| BOI_Tag := "dereferenceable"; BOI_Begin := 1; BOI_End := 3 |}
  = Ok (2 ^ 32 + 5) ∧
  (λ R, lookupMinMax R (Some p, Dereferenceable) assume_wide)
    <$> fillMapFromAssume assume_wide ∅
  = Ok (Some {| Min := 5; Max := 5 |}).
Proof. split; vm_compute; reflexivity. Qed.

(** C4: the arguments 9, 5, 2 give (2, 9), and a second run changes
    nothing. *)
Lemma fillMapFromAssume_idempotent_order_insensitive_witness :
  let Assume :=
    mkAssume 101 cond callee ((λ v, ("align", [p; i64 v])) <$> [9; 5; 2]) in
  ∃ Result',
    fillMapFromAssume Assume ∅ = Ok Result' ∧
    lookupMinMax Result' (Some p, Alignment) Assume
    = Some {| Min := 2; Max := 9 |} ∧
    fillMapFromAssume Assume Result' = Ok Result'.
Proof.
  intros Assume.
  destruct fillMapFromAssume_idempotent_order_insensitive as (Hid & _ & H529).
  destruct (H529 101%nat cond callee "align" p [9; 5; 2] ∅
              (Permutation_cons_append [5; 2] 9) (lookupMinMax_empty _ _))
    as (Result' & Hfill & Hlook).
  exists Result'. split_and!; [exact Hfill | exact Hlook |].
  exact (Hid _ _ _ Hfill).
Defined.

(** C3: of the three ["align"] bundles of [%p], with the arguments 5, 2 and
    9, the first answers: 5, not the last (9) and not the bounds (2, 9). *)
Lemma hasAttributeInAssume_first_match_witness :
  hasAttributeInAssume assume_three (Some p) "align" (Some 0)
  = Ok (true, Some 5).
Proof.
  apply (hasAttributeInAssume_first_match assume_three (Some p) "align" 0 5
           []
           [ {| BOI_Tag := "align"; BOI_Begin := 3; BOI_End := 5 |};
             {| BOI_Tag := "align"; BOI_Begin := 5; BOI_End := 7 |} ]
           {| BOI_Tag := "align"; BOI_Begin := 1; BOI_End := 3 |});
    try reflexivity.
  - apply Forall_nil_2.
  - split; [reflexivity|]. intros on Hon. injection Hon as <-. reflexivity.
Defined.

(** C6 (as stated) fails.  After ["ignore"(%p, i64 5)] the bundle
    ["ignore"(%p)] leaves the pair (0, 0) and the bundle
    ["ignore"(%p, i64 0)] the pair (0, 5), so that the two maps differ; and
    with ["ignore"(%p, i64 5)] after ["ignore"(%p)] the call returns the
    pair (0, 5), not (0, 0). *)
Lemma fillMapFromAssume_degenerate_counterexample :
  let B := {| BOI_Tag := "ignore"; BOI_Begin := 3; BOI_End := 4 |} in
  let B0 := {| BOI_Tag := "ignore"; BOI_Begin := 3; BOI_End := 5 |} in
  let B' := {| BOI_Tag := "ignore"; BOI_Begin := 1; BOI_End := 2 |} in
  let Key := (Some p, None_) in
  let entry Assume :=
    (λ R, lookupMinMax R Key Assume) <$> fillMapFromAssume Assume ∅ in
  (B ∈ bundle_op_infos assume_ignore ∧
   bundleKey assume_ignore B = Ok Key ∧
   bundleHasArgument B ABA_Argument = false ∧
   B0 ∈ bundle_op_infos assume_ignore_zero ∧
   bundleKey assume_ignore_zero B0 = Ok Key ∧
   bundleArgument assume_ignore_zero B0 = Ok 0 ∧
   entry assume_ignore = Ok (Some {| Min := 0; Max := 0 |}) ∧
   entry assume_ignore_zero = Ok (Some {| Min := 0; Max := 5 |}) ∧
   fillMapFromAssume assume_ignore ∅
   ≠ fillMapFromAssume assume_ignore_zero ∅) ∧
  (B' ∈ bundle_op_infos assume_ignore_then_five ∧
   bundleKey assume_ignore_then_five B' = Ok Key ∧
   bundleHasArgument B' ABA_Argument = false ∧
   entry assume_ignore_then_five = Ok (Some {| Min := 0; Max := 5 |})).
Proof.
  intros B B0 B' Key entry. unfold entry. split; split_and!;
    try (vm_compute; reflexivity);
    try apply list_elem_of_here;
    try (apply list_elem_of_further, list_elem_of_here).
  intros Heq.
  apply (f_equal (fmap (λ R, @lookupMinMax registry R Key assume_ignore)))
    in Heq.
  vm_compute in Heq. discriminate Heq.
Qed.

(** C6: the second bundle of [assume_ignore] leaves (0, 0), and
    [assume_zero] gives the same map with ["ignore"(%p, i64 0)] in the place
    of its first bundle ["ignore"(%p)]. *)
Lemma fillMapFromAssume_degenerate_witness :
  let Key := (Some p, None_) in
  (∃ Result',
     fillMapFromAssume assume_ignore ∅ = Ok Result' ∧
     lookupMinMax Result' Key assume_ignore
     = Some {| Min := 0; Max := 0 |}) ∧
  fillMapFromAssume assume_zero ∅
  = fillMapFromAssume
      (mkAssume 103 cond callee
         [("ignore", [p; i64 0]); ("ignore", [p; i64 0])]) ∅.
Proof.
  intros Key.
  destruct (@fillMapFromAssume_degenerate registry) as [Hbare Hzero].
  split.
  - assert (Hfill : fillMapFromAssume assume_ignore ∅
                    = Ok (<[Key := {[102%nat := {| Min := 0; Max := 0 |}]}]> ∅))
      by (vm_compute; reflexivity).
    assert (Hne : ¬ (Key.1 = None ∧ Key.2 = None_)).
    { simpl. intros [Hp _]. discriminate Hp. }
    destruct (Hbare assume_ignore ∅ _
                [{| BOI_Tag := "ignore"; BOI_Begin := 1; BOI_End := 3 |}] []
                {| BOI_Tag := "ignore"; BOI_Begin := 3; BOI_End := 4 |}
                Key Hfill eq_refl eq_refl Hne eq_refl)
      as (R1 & R2 & _ & _ & _ & _ & Hfinal).
    eexists. split; [exact Hfill|]. apply Hfinal.
    intros B0 HB0. by apply elem_of_nil in HB0.
  - apply (Hzero 103%nat cond callee [] [("ignore", [p; i64 0])] "ignore" p
             64%N ∅).
    + repeat constructor.
    + intros R1 HR1. left. injection HR1 as <-. apply lookupMinMax_empty.
Defined.

(** C7: slot 1 of the bundle of [assume_align] is [i64 8]; there is no
    slot 2. *)
Lemma bundleHasArgument_slot_bounds_witness :
  let B := {| BOI_Tag := "align"; BOI_Begin := 1; BOI_End := 3 |} in
  bundleSlots assume_align B !! 1%nat = Some (i64 8) ∧
  getValueFromBundleOpInfo assume_align B 2 = Fatal.
Proof.
  intros B.
  assert (Hwf : BOI_wf B) by (unfold BOI_wf; simpl; lia).
  assert (H1 : 0 ≤ 1) by lia.
  assert (H2 : 0 ≤ 2) by lia.
  destruct (bundleHasArgument_slot_bounds assume_align B 1 H1)
    as (_ & _ & _ & Hget).
  destruct (bundleHasArgument_slot_bounds assume_align B 2 H2)
    as (_ & _ & Hfatal & _).
  split.
  - exact (proj2 (Hget (i64 8) eq_refl) Hwf).
  - exact (Hfatal eq_refl).
Defined.

(** C8: an assume without bundle and an assume with ignore bundles only. *)
Lemma isAssumeWithEmptyBundle_iff_witness :
  (∃ b, isAssumeWithEmptyBundle assume_bare = Ok b ∧ b = true) ∧
  (∃ b, isAssumeWithEmptyBundle assume_ignore = Ok b ∧ b = true).
Proof.
  split.
  - destruct (isAssumeWithEmptyBundle_iff assume_bare eq_refl)
      as (b & Hb & _ & Hnil).
    exists b. split; [exact Hb | exact (Hnil eq_refl)].
  - destruct (isAssumeWithEmptyBundle_iff assume_ignore eq_refl)
      as (b & Hb & Hall & _).
    exists b. split; [exact Hb|]. apply Hall.
    repeat constructor.
Defined.

(** C5: the use-scan of [%p] meets the ["nonnull"] fact first; with the
    wanted set {Alignment} it returns the later ["align"] fact. *)
Lemma getKnowledgeForValue_kind_filter_witness :
  getKnowledgeForValue uses_recent_first p [Alignment] None always_true
  = Ok {| RK_AttrKind := Alignment; RK_ArgValue := Some 8;
          RK_WasOn := Some p |} ∧
  Alignment ≠ NonNull.
Proof.
  split; [reflexivity|].
  assert (Hnot : NonNull ∉ [Alignment]).
  { intros Hin. apply list_elem_of_singleton in Hin. discriminate Hin. }
  assert (Hne : NonNull ≠ None_) by discriminate.
  exact (proj2 (getKnowledgeForValue_kind_filter uses_recent_first p
                  [Alignment] None always_true _ eq_refl) NonNull Hnot Hne).
Defined.

(** C9 (as stated) fails.  The index of [%p] has no placeholder and lists
    the bundles that own the uses of [%p] in the order they were recorded,
    while the use-list has the most recent use first; the filter accepts
    everything.  With the two ["align"] facts of [%p] the indexed path
    returns the argument 8 and the use-scan the argument 16; with an
    ["align"] and a ["nonnull"] fact, both kinds wanted, the two paths even
    return different kinds. *)
Lemma getKnowledgeForValue_indexed_fallback_counterexample :
  let RK8 := {| RK_AttrKind := Alignment; RK_ArgValue := Some 8;
                RK_WasOn := Some p |} in
  let RK16 := {| RK_AttrKind := Alignment; RK_ArgValue := Some 16;
                 RK_WasOn := Some p |} in
  let RKn := {| RK_AttrKind := NonNull; RK_ArgValue := None;
                RK_WasOn := Some p |} in
  (Forall (λ E, RE_Index E ≠ ExprResultIdx) (index_two_assumes p) ∧
   IndexFollowsUses (reverse (uses_two_assumes p)) (index_two_assumes p) ∧
   getKnowledgeForValue uses_two_assumes p [Alignment]
     (Some index_two_assumes) always_true = Ok RK8 ∧
   getKnowledgeForValue uses_two_assumes p [Alignment]
     None always_true = Ok RK16 ∧
   RK_ArgValue RK8 ≠ RK_ArgValue RK16) ∧
  (Forall (λ E, RE_Index E ≠ ExprResultIdx) (assumptionsFor p) ∧
   IndexFollowsUses (reverse (uses_recent_first p)) (assumptionsFor p) ∧
   getKnowledgeForValue uses_recent_first p [Alignment; NonNull]
     (Some assumptionsFor) always_true = Ok RK8 ∧
   getKnowledgeForValue uses_recent_first p [Alignment; NonNull]
     None always_true = Ok RKn ∧
   RK_AttrKind RK8 ≠ RK_AttrKind RKn).
Proof.
  simpl. split; split_and!.
  - repeat constructor; discriminate.
  - apply (follows_bundle {| U_user := assume_align; U_operandNo := 1 |}
             [{| U_user := assume_align16; U_operandNo := 1 |}] 0
             {| BOI_Tag := "align"; BOI_Begin := 1; BOI_End := 3 |});
      [reflexivity | reflexivity | discriminate |].
    apply (follows_bundle {| U_user := assume_align16; U_operandNo := 1 |}
             [] 0 {| BOI_Tag := "align"; BOI_Begin := 1; BOI_End := 3 |});
      [reflexivity | reflexivity | discriminate |].
    apply follows_nil.
  - reflexivity.
  - reflexivity.
  - discriminate.
  - repeat constructor; discriminate.
  - apply (follows_bundle use_align [use_nonnull] 0
             {| BOI_Tag := "align"; BOI_Begin := 1; BOI_End := 3 |});
      [reflexivity | reflexivity | discriminate |].
    apply (follows_bundle use_nonnull [] 1
             {| BOI_Tag := "nonnull"; BOI_Begin := 3; BOI_End := 4 |});
      [reflexivity | reflexivity | discriminate |].
    apply follows_nil.
  - reflexivity.
  - reflexivity.
  - discriminate.
Qed.

(** C9: with the wanted set {Alignment} the index and the use-list of
    [%p], which name the two bundles of [assume_two_kinds] in opposite
    orders, give knowledge of the same kind and argument. *)
Lemma getKnowledgeForValue_indexed_fallback_witness :
  ∃ RK1 RK2,
    getKnowledgeForValue uses_recent_first p [Alignment]
      (Some assumptionsFor) always_true = Ok RK1 ∧
    getKnowledgeForValue uses_recent_first p [Alignment] None always_true
    = Ok RK2 ∧
    RK_AttrKind RK1 = RK_AttrKind RK2 ∧ RK_ArgValue RK1 = RK_ArgValue RK2.
Proof.
  set (Ba := {| BOI_Tag := "align"; BOI_Begin := 1; BOI_End := 3 |}).
  set (Bn := {| BOI_Tag := "nonnull"; BOI_Begin := 3; BOI_End := 4 |}).
  destruct (@getKnowledgeForValue_indexed_fallback registry
              uses_recent_first assumptionsFor p [Alignment] always_true
              [(assume_two_kinds, Ba); (assume_two_kinds, Bn)]
              [(assume_two_kinds, Bn); (assume_two_kinds, Ba)]
              eq_refl eq_refl) as [Hex Hsame].
  { intros c. rewrite !elem_of_cons, !elem_of_nil. tauto. }
  destruct Hex as (RK1 & RK2 & H1 & H2).
  { repeat constructor; eexists; reflexivity. }
  exists RK1, RK2. split_and!; [exact H1 | exact H2 | |];
    apply (Hsame RK1 RK2 H1 H2);
    intros c c' rk rk' Hc Hc' [Hd Ha] [Hd' Ha'];
    apply elem_of_cons in Hc as [-> | Hc%list_elem_of_singleton];
    apply elem_of_cons in Hc' as [-> | Hc'%list_elem_of_singleton];
    subst; vm_compute in Hd, Hd', Ha, Ha';
    try discriminate Ha; try discriminate Ha';
    injection Hd as <-; injection Hd' as <-; done.
Defined.

(** C10 (as stated) fails for [getKnowledgeFromUse]: with the none kind
    wanted, the use of [%p] in ["ignore"(%p, i64 5)] yields the decoded
    knowledge of the none kind, which is not the none record. *)
Lemma getKnowledgeFromUse_none_kind_counterexample :
  let U := {| U_user := assume_ignore; U_operandNo := 1 |} in
  let RK := {| RK_AttrKind := None_; RK_ArgValue := Some 5;
               RK_WasOn := Some p |} in
  Use_get U = Some p ∧
  getKnowledgeFromUse U [None_] = Ok RK ∧
  RK ≠ RK_none ∧
  RK_AttrKind RK = Attribute_None.
Proof.
  simpl. split_and!; [reflexivity | reflexivity | discriminate | reflexivity].
Qed.

Lemma knowledge_queries_none_kind_witness :
  let RK := {| RK_AttrKind := Alignment; RK_ArgValue := Some 8;
               RK_WasOn := Some p |} in
  getKnowledgeForValue uses_recent_first p [None_; Alignment] None always_true
  = Ok RK ∧
  (RK = RK_none ∨ RK_AttrKind RK ≠ Attribute_None).
Proof.
  intros RK. split; [reflexivity|].
  exact (proj1 knowledge_queries_none_kind uses_recent_first p
           [None_; Alignment] None always_true RK eq_refl).
Defined.

End Examples.

(** * Further properties *)

Section MoreProperties.
Context `{!AttributeRegistry}.

Lemma assert_true (b : bool) (u : unit) : assert b = Ok u → b = true.
Proof. by destruct b. Qed.

(** ** hasAttributeInAssume *)

Lemma hasAttributeInAssume_loop_Ok Assume IsOn AttrName ArgVal BOIs
    (b : bool) (out : option Z) :
  hasAttributeInAssume_loop Assume IsOn AttrName ArgVal BOIs = Ok (b, out) →
  if b then
    ∃ pre B post,
      BOIs = pre ++ B :: post ∧
      Forall (bundleRejected Assume IsOn AttrName) pre ∧
      bundleMatches Assume IsOn AttrName B ∧
      match ArgVal with
      | None => out = None
      | Some _ => ∃ z, bundleArgument Assume B = Ok z ∧ out = Some z
      end
  else out = ArgVal ∧ Forall (bundleRejected Assume IsOn AttrName) BOIs.
Proof.
  induction BOIs as [|B0 rest IH].
  { simpl. intros [= <- <-]. by split. }
  assert (Hcons : bundleRejected Assume IsOn AttrName B0 →
    hasAttributeInAssume_loop Assume IsOn AttrName ArgVal rest = Ok (b, out) →
    if b then
      ∃ pre B post,
        B0 :: rest = pre ++ B :: post ∧
        Forall (bundleRejected Assume IsOn AttrName) pre ∧
        bundleMatches Assume IsOn AttrName B ∧
        match ArgVal with
        | None => out = None
        | Some _ => ∃ z, bundleArgument Assume B = Ok z ∧ out = Some z
        end
    else out = ArgVal ∧
         Forall (bundleRejected Assume IsOn AttrName) (B0 :: rest)).
  { intros Hrej Hrest. specialize (IH Hrest). destruct b.
    - destruct IH as (pre & B & post & -> & Hpre & HB & Hout).
      exists (B0 :: pre), B, post. split_and!; [done| |done..].
      by constructor.
    - destruct IH as [-> Hall]. split; [done|]. by constructor. }
  simpl. case_bool_decide as Htag.
  { apply Hcons. by left. }
  assert (Hhit : (match ArgVal with
                  | Some _ =>
                      _ ← assert (bool_decide
                            (ABA_Argument
                             < (BOI_End B0 - BOI_Begin B0) `mod` 2 ^ 32));
                      V ← getValueFromBundleOpInfo Assume B0 ABA_Argument;
                      z ← getZExtValue V;
                      Ok (true, Some z)
                  | None => Ok (true, None)
                  end) = Ok (b, out) →
                 bundleMatches Assume IsOn AttrName B0 →
                 b = true ∧
                 match ArgVal with
                 | None => out = None
                 | Some _ => ∃ z, bundleArgument Assume B0 = Ok z ∧ out = Some z
                 end).
  { intros Hres _. destruct ArgVal as [old|].
    - apply bind_Ok in Hres as (_ & _ & (V & HV & (z & Hz & [= <- <-])%bind_Ok)%bind_Ok).
      split; [done|]. exists z. split; [|done].
      unfold bundleArgument. by rewrite HV.
    - by injection Hres as <- <-. }
  destruct IsOn as [on|]; simpl.
  - destruct (bool_decide ((BOI_End B0 - BOI_Begin B0) `mod` 2 ^ 32
                           ≤ ABA_WasOn)) eqn:Hcount; simpl.
    { apply bool_decide_eq_true in Hcount.
      apply Hcons. right. exists on. split; [done|]. left.
      unfold bundleHasArgument. by apply bool_decide_eq_false, Z.le_ngt. }
    destruct (getValueFromBundleOpInfo Assume B0 ABA_WasOn) as [V|] eqn:HV;
      simpl; [|done].
    destruct (bool_decide (on ≠ V)) eqn:Hon.
    { apply bool_decide_eq_true in Hon.
      apply Hcons. right. exists on. split; [done|]. right. by exists V. }
    apply bool_decide_eq_false, dec_stable in Hon. subst V. intros Hres.
    assert (HB : bundleMatches Assume (Some on) AttrName B0).
    { split; [done|]. by intros on' [= <-]. }
    destruct (Hhit Hres HB) as [-> Hout].
    exists [], B0, rest. by split_and!.
  - intros Hres.
    assert (HB : bundleMatches Assume None AttrName B0).
    { split; [done|]. by intros on' [=]. }
    destruct (Hhit Hres HB) as [-> Hout].
    exists [], B0, rest. by split_and!.
Qed.

Lemma hasAttributeInAssume_Ok AssumeCI IsOn AttrName ArgVal r :
  hasAttributeInAssume AssumeCI IsOn AttrName ArgVal = Ok r →
  isAssume AssumeCI = true ∧ isExistingAttribute AttrName = true ∧
  (ArgVal = None ∨
   doesAttrKindHaveArgument (getAttrKindFromName AttrName) = true) ∧
  hasAttributeInAssume_loop AssumeCI IsOn AttrName ArgVal
    (bundle_op_infos AssumeCI) = Ok r.
Proof.
  unfold hasAttributeInAssume.
  destruct (bool_decide (is_Some (inst_intrinsic AssumeCI))); simpl; [|done].
  destruct (isAssume AssumeCI); simpl; [|done].
  destruct (isExistingAttribute AttrName); simpl; [|done].
  destruct (bool_decide (ArgVal = None) || _) eqn:Harg; simpl; [|done].
  intros Hres. split_and!; [done..| |].
  - apply orb_true_iff in Harg as [Hn%bool_decide_eq_true | Hd]; eauto.
  - case_bool_decide as Hnil; [|done]. by rewrite Hnil.
Qed.

(** X1: a result of [hasAttributeInAssume] is backed by the bundle table.
    When it answers true, some bundle has the tag and satisfies the WasOn
    constraint, every bundle before it is one the scan passes over, and the
    value written, if an output was requested, is the argument of that
    bundle.  When it answers false, every bundle is one the scan passes
    over and the output holds what it held. *)
Theorem hasAttributeInAssume_sound (AssumeCI : Instruction)
    (IsOn : option Value) (AttrName : string) (ArgVal out : option Z)
    (b : bool) :
  hasAttributeInAssume AssumeCI IsOn AttrName ArgVal = Ok (b, out) →
  if b then
    ∃ pre B post,
      bundle_op_infos AssumeCI = pre ++ B :: post ∧
      Forall (bundleRejected AssumeCI IsOn AttrName) pre ∧
      bundleMatches AssumeCI IsOn AttrName B ∧
      match ArgVal with
      | None => out = None
      | Some _ => ∃ z, bundleArgument AssumeCI B = Ok z ∧ out = Some z
      end
  else
    out = ArgVal ∧
    Forall (bundleRejected AssumeCI IsOn AttrName) (bundle_op_infos AssumeCI).
Proof.
  intros (_ & _ & _ & Hloop)%hasAttributeInAssume_Ok.
  by apply hasAttributeInAssume_loop_Ok.
Qed.

Lemma hasAttributeInAssume_loop_all_rejected Assume IsOn AttrName ArgVal BOIs :
  Forall (bundleRejected Assume IsOn AttrName) BOIs →
  hasAttributeInAssume_loop Assume IsOn AttrName ArgVal BOIs
  = Ok (false, ArgVal).
Proof.
  induction 1 as [|B rest HB _ IH]; [done|].
  by rewrite hasAttributeInAssume_loop_rejected.
Qed.

Lemma hasAttributeInAssume_asserts AssumeCI IsOn AttrName ArgVal :
  isAssume AssumeCI = true →
  isExistingAttribute AttrName = true →
  ArgVal = None ∨
  doesAttrKindHaveArgument (getAttrKindFromName AttrName) = true →
  hasAttributeInAssume AssumeCI IsOn AttrName ArgVal
  = hasAttributeInAssume_loop AssumeCI IsOn AttrName ArgVal
      (bundle_op_infos AssumeCI).
Proof.
  intros HA Hex Harg. unfold hasAttributeInAssume.
  rewrite (isAssume_intrinsic _ HA), HA, Hex. simpl.
  replace (bool_decide (ArgVal = None) || _) with true.
  - simpl. case_bool_decide as Hnil; [|done]. by rewrite Hnil.
  - symmetry. apply orb_true_iff.
    destruct Harg as [-> | ->]; [left | by right].
    by apply bool_decide_eq_true.
Qed.

(** X2: when no bundle of the assume has the tag and satisfies the WasOn
    constraint, and the contract of the call holds, [hasAttributeInAssume]
    answers false and leaves the output as it was; an assume without bundle
    is a case of it. *)
Theorem hasAttributeInAssume_no_match (AssumeCI : Instruction)
    (IsOn : option Value) (AttrName : string) (ArgVal : option Z) :
  isAssume AssumeCI = true →
  isExistingAttribute AttrName = true →
  ArgVal = None ∨
  doesAttrKindHaveArgument (getAttrKindFromName AttrName) = true →
  Forall (bundleRejected AssumeCI IsOn AttrName) (bundle_op_infos AssumeCI) →
  hasAttributeInAssume AssumeCI IsOn AttrName ArgVal = Ok (false, ArgVal).
Proof.
  intros HA Hex Harg Hall. rewrite hasAttributeInAssume_asserts by done.
  by apply hasAttributeInAssume_loop_all_rejected.
Qed.

(** X3: the scan stops at the first bundle that has the tag and satisfies
    the WasOn constraint.  When an output is requested and that bundle has no
    Argument slot, or holds in it a value that is no integer constant of at
    most 64 bits, the call fails fatally, whatever the later bundles hold. *)
Theorem hasAttributeInAssume_stops_at_match (AssumeCI : Instruction)
    (IsOn : option Value) (AttrName : string) (old : Z)
    (pre post : list BundleOpInfo) (B : BundleOpInfo) :
  bundle_op_infos AssumeCI = pre ++ B :: post →
  Forall (bundleRejected AssumeCI IsOn AttrName) pre →
  bundleMatches AssumeCI IsOn AttrName B →
  bundleArgument AssumeCI B = Fatal →
  hasAttributeInAssume AssumeCI IsOn AttrName (Some old) = Fatal.
Proof.
  intros Hsplit Hpre HB Harg.
  destruct (hasAttributeInAssume AssumeCI IsOn AttrName (Some old))
    as [[b out]|] eqn:Hr; [|done].
  apply hasAttributeInAssume_Ok in Hr as (_ & _ & _ & Hloop).
  rewrite Hsplit in Hloop. clear Hsplit. exfalso.
  induction Hpre as [|B0 pre HB0 _ IH]; simpl app in Hloop.
  - destruct HB as [Htag Hon]. simpl in Hloop.
    rewrite bool_decide_eq_false_2 in Hloop by (by intros ?).
    assert (Hskip : (match IsOn with
                     | None => Ok false
                     | Some on =>
                         if bool_decide
                              ((BOI_End B - BOI_Begin B) `mod` 2 ^ 32
                               ≤ ABA_WasOn)
                         then Ok true
                         else
                           V ← getValueFromBundleOpInfo AssumeCI B ABA_WasOn;
                           Ok (bool_decide (on ≠ V))
                     end) = Ok false).
    { destruct IsOn as [on|]; [|done]. specialize (Hon on eq_refl).
      apply getValueFromBundleOpInfo_Ok in Hon as Hon'.
      destruct Hon' as [Hhas%bool_decide_eq_true _].
      rewrite bool_decide_eq_false_2 by (by apply Z.lt_nge).
      rewrite Hon. simpl.
      by rewrite bool_decide_eq_false_2 by (by intros ?). }
    rewrite Hskip in Hloop. simpl in Hloop.
    apply bind_Ok in Hloop as (_ & _ & (V & HV & (z & Hz & _)%bind_Ok)%bind_Ok).
    unfold bundleArgument in Harg. rewrite HV in Harg. simpl in Harg.
    congruence.
  - rewrite hasAttributeInAssume_loop_rejected in Hloop by done. by apply IH.
Qed.

(** X4: without WasOn constraint and without output, [hasAttributeInAssume]
    reads the tags only: on an assume and for an existing attribute it
    never fails and answers whether some bundle has the tag. *)
Theorem hasAttributeInAssume_tag_only (AssumeCI : Instruction)
    (AttrName : string) :
  isAssume AssumeCI = true →
  isExistingAttribute AttrName = true →
  ∃ b : bool,
    hasAttributeInAssume AssumeCI None AttrName None = Ok (b, None) ∧
    (b = true ↔
       Exists (λ B, BOI_Tag B = AttrName) (bundle_op_infos AssumeCI)).
Proof.
  intros HA Hex.
  rewrite hasAttributeInAssume_asserts by (done || by left).
  induction (bundle_op_infos AssumeCI) as [|B rest IH]; simpl.
  - exists false. split; [done|]. split; [done|]. by intros ?%Exists_nil.
  - case_bool_decide as Htag.
    + destruct IH as (b & -> & Hb). exists b. split; [done|].
      rewrite Exists_cons. split.
      * intros Hb1. right. by apply Hb.
      * intros [Ht | Hr]; [done | by apply Hb].
    + exists true. split; [done|]. split; [|done]. intros _. by left.
Qed.

(** ** fillMapFromAssume *)

Lemma bundleActions_Forall2 Assume BOIs acts :
  bundleActions Assume BOIs = Ok acts →
  Forall2 (λ B act, bundleAction Assume B = Ok act) BOIs acts.
Proof.
  revert acts. induction BOIs as [|B rest IH]; intros acts; simpl.
  - intros [= <-]. constructor.
  - intros (act & Hact & (acts' & Hacts & [= <-])%bind_Ok)%bind_Ok.
    constructor; [done|]. by apply IH.
Qed.

Lemma bundleAction_actKey Assume B act Key :
  bundleAction Assume B = Ok act →
  actKey act = Some Key ↔
  bundleKey Assume B = Ok Key ∧ ¬ (Key.1 = None ∧ Key.2 = Attribute_None).
Proof.
  unfold bundleAction. intros (K & HK & Hact)%bind_Ok. rewrite HK.
  case_bool_decide as Hempty.
  - injection Hact as <-. simpl. split; [done|]. by intros [[= <-] Hne].
  - destruct (negb _).
    + injection Hact as <-. simpl. split.
      * by intros [= <-].
      * by intros [[= <-] _].
    + apply bind_Ok in Hact as (Val & _ & [= <-]). simpl. split.
      * by intros [= <-].
      * by intros [[= <-] _].
Qed.

Lemma bundleAction_observe_inv Assume B Key Val :
  bundleAction Assume B = Ok (ActObserve Key Val) →
  bundleHasArgument B ABA_Argument = true ∧ bundleVal Assume B = Ok Val.
Proof.
  unfold bundleAction. intros (K & HK & Hact)%bind_Ok.
  case_bool_decide; [done|].
  destruct (bundleHasArgument B ABA_Argument); simpl in Hact; [|done].
  by apply bind_Ok in Hact as (Val' & HVal & [= <- <-]).
Qed.

Lemma bundleAction_reset_inv Assume B Key :
  bundleAction Assume B = Ok (ActReset Key) →
  bundleHasArgument B ABA_Argument = false.
Proof.
  unfold bundleAction. intros (K & HK & Hact)%bind_Ok.
  case_bool_decide; [done|].
  destruct (bundleHasArgument B ABA_Argument); simpl in Hact; [|done].
  by apply bind_Ok in Hact as (Val' & HVal & [=]).
Qed.

Lemma bundleVal_bounded Assume B Val :
  bundleVal Assume B = Ok Val → 0 ≤ Val < 2 ^ 32.
Proof.
  unfold bundleVal. intros (z & _ & [= <-])%bind_Ok.
  by apply Z.mod_pos_bound.
Qed.

Lemma applyInner_other_addr a a' Key Inner act :
  a' ≠ a →
  applyInner a Key Inner act ≫= (.!! a') = Inner ≫= (.!! a').
Proof.
  intros Hne. unfold applyInner. case_bool_decide; [|done]. simpl.
  rewrite lookup_insert_ne by done. by destruct Inner.
Qed.

Lemma foldl_applyInner_other_addr a a' Key acts Inner :
  a' ≠ a →
  foldl (applyInner a Key) Inner acts ≫= (.!! a') = Inner ≫= (.!! a').
Proof.
  intros Hne. revert Inner. induction acts as [|act acts IH]; intros Inner;
    [done|].
  simpl. by rewrite IH, applyInner_other_addr.
Qed.

Lemma foldl_applyInner_untouched a Key acts Inner :
  Forall (λ act, actKey act ≠ Some Key) acts →
  foldl (applyInner a Key) Inner acts = Inner.
Proof.
  intros Hacts. revert Inner.
  induction Hacts as [|act acts Hact _ IH]; intros Inner; [done|].
  simpl. rewrite IH. unfold applyInner. by rewrite bool_decide_eq_false_2.
Qed.

(** X5: [fillMapFromAssume] writes only the entries of its own assume under
    the keys of its bundles: the pairs recorded for any other assume, and
    the whole inner map of a key that no bundle has, are left as they
    were. *)
Theorem fillMapFromAssume_frame (AssumeCI : Instruction)
    (Result Result' : gmap (option Value * AttrKind) (gmap nat MinMax)) :
  fillMapFromAssume AssumeCI Result = Ok Result' →
  (∀ (Key : option Value * AttrKind) (Other : Instruction),
     inst_addr Other ≠ inst_addr AssumeCI →
     lookupMinMax Result' Key Other = lookupMinMax Result Key Other) ∧
  (∀ Key : option Value * AttrKind,
     (∀ B, B ∈ bundle_op_infos AssumeCI → bundleKey AssumeCI B ≠ Ok Key) →
     Result' !! Key = Result !! Key).
Proof.
  intros (_ & acts & Hacts & ->)%fillMapFromAssume_Ok. split.
  - intros Key Other Hne. unfold lookupMinMax.
    by rewrite lookup_foldl_applyAction, foldl_applyInner_other_addr.
  - intros Key Hkey. rewrite lookup_foldl_applyAction.
    apply foldl_applyInner_untouched.
    apply bundleActions_Forall2 in Hacts.
    induction Hacts as [|B act BOIs acts Hact _ IH]; constructor.
    + intros [HK _]%(bundleAction_actKey _ _ _ _ Hact).
      apply (Hkey B); [left | done].
    + apply IH. intros B' HB'. apply Hkey. by right.
Qed.

Lemma applyEntry_is_Some Key old act :
  is_Some old → is_Some (applyEntry Key old act).
Proof. unfold applyEntry. case_bool_decide; eauto. Qed.

Lemma foldl_applyEntry_is_Some Key acts old :
  is_Some old → is_Some (foldl (applyEntry Key) old acts).
Proof.
  revert old. induction acts as [|act acts IH]; intros old Hold; [done|].
  simpl. by apply IH, applyEntry_is_Some.
Qed.

Lemma foldl_applyEntry_touched Key acts old :
  Exists (λ act, actKey act = Some Key) acts →
  is_Some (foldl (applyEntry Key) old acts).
Proof.
  intros Hex. revert old.
  induction Hex as [act acts Hact | act acts _ IH]; intros old; simpl.
  - apply foldl_applyEntry_is_Some. unfold applyEntry.
    rewrite bool_decide_eq_true_2 by done. eauto.
  - apply IH.
Qed.

Lemma bundleActions_touching Assume BOIs acts B Key :
  bundleActions Assume BOIs = Ok acts →
  B ∈ BOIs → bundleKey Assume B = Ok Key →
  ¬ (Key.1 = None ∧ Key.2 = Attribute_None) →
  ∃ act, act ∈ acts ∧ bundleAction Assume B = Ok act ∧ actKey act = Some Key.
Proof.
  intros Hacts%bundleActions_Forall2 HB HK Hne.
  induction Hacts as [|B0 act BOIs acts Hact _ IH].
  - by apply elem_of_nil in HB.
  - apply elem_of_cons in HB as [-> | HB].
    + exists act. split_and!; [left | done |].
      by apply (bundleAction_actKey _ _ _ _ Hact).
    + destruct (IH HB) as (act' & Hin & Hact' & HK').
      exists act'. split_and!; [by right | done..].
Qed.

(** X6: [fillMapFromAssume] never removes a recorded pair, and after it
    every bundle of the assume whose key is not empty has a pair recorded
    for its key and the assume. *)
Theorem fillMapFromAssume_entries (AssumeCI : Instruction)
    (Result Result' : gmap (option Value * AttrKind) (gmap nat MinMax)) :
  fillMapFromAssume AssumeCI Result = Ok Result' →
  (∀ (Key : option Value * AttrKind) (Other : Instruction),
     is_Some (lookupMinMax Result Key Other) →
     is_Some (lookupMinMax Result' Key Other)) ∧
  (∀ (B : BundleOpInfo) (Key : option Value * AttrKind),
     B ∈ bundle_op_infos AssumeCI →
     bundleKey AssumeCI B = Ok Key →
     ¬ (Key.1 = None ∧ Key.2 = Attribute_None) →
     is_Some (lookupMinMax Result' Key AssumeCI)).
Proof.
  intros (_ & acts & Hacts & ->)%fillMapFromAssume_Ok. split.
  - intros Key Other Hsome. unfold lookupMinMax in *.
    rewrite lookup_foldl_applyAction.
    destruct (decide (inst_addr Other = inst_addr AssumeCI)) as [Heq | Hne].
    + rewrite Heq in *. rewrite lookup_foldl_applyInner.
      by apply foldl_applyEntry_is_Some.
    + by rewrite foldl_applyInner_other_addr.
  - intros B Key HB HK Hne. rewrite lookupMinMax_foldl_applyAction.
    apply foldl_applyEntry_touched.
    destruct (bundleActions_touching _ _ _ _ _ Hacts HB HK Hne)
      as (act & Hin & _ & Hact).
    apply Exists_exists. eauto.
Qed.

Lemma foldl_applyEntry_envelope Key acts old (v : Z) :
  Forall (λ act, actKey act = Some Key → ∃ w, act = ActObserve Key w) acts →
  (ActObserve Key v ∈ acts ∨ ∃ MM, old = Some MM ∧ Min MM ≤ v ≤ Max MM) →
  ∃ MM, foldl (applyEntry Key) old acts = Some MM ∧ Min MM ≤ v ≤ Max MM.
Proof.
  intros Hacts. revert old.
  induction Hacts as [|act acts Hact _ IH]; intros old Hv.
  - destruct Hv as [Hv%elem_of_nil | Hv]; [done|]. by simpl.
  - simpl. apply IH.
    destruct Hv as [[<- | Hv]%elem_of_cons | (MM & -> & HMM)].
    + right. unfold applyEntry. rewrite bool_decide_eq_true_2 by done.
      eexists. split; [done|]. destruct old as [MM|]; simpl; lia.
    + by left.
    + right. unfold applyEntry. case_bool_decide as HK.
      * destruct (Hact HK) as [w ->]. eexists. split; [done|]. simpl. lia.
      * eauto.
Qed.

Lemma bundleActions_observe_only (Assume : Instruction)
    (Key : option Value * AttrKind) BOIs acts :
  bundleActions Assume BOIs = Ok acts →
  (∀ B', B' ∈ BOIs → bundleKey Assume B' = Ok Key →
         bundleHasArgument B' ABA_Argument = true) →
  ¬ (Key.1 = None ∧ Key.2 = Attribute_None) →
  Forall (λ act, actKey act = Some Key → ∃ w, act = ActObserve Key w) acts.
Proof.
  intros Hacts%bundleActions_Forall2 Hall Hne.
  induction Hacts as [|B0 act BOIs acts Hact _ IH]; constructor.
  - intros [HK0 _]%(bundleAction_actKey _ _ _ _ Hact).
    destruct act as [|K|K w]; simpl in *.
    + apply (bundleAction_actKey _ _ _ Key) in Hact as [_ Hact].
      by specialize (Hact (conj HK0 Hne)).
    + apply bundleAction_reset_inv in Hact.
      rewrite (Hall B0) in Hact; [done | left | done].
    + apply (bundleAction_actKey _ _ _ Key) in Hact as [_ Hact].
      specialize (Hact (conj HK0 Hne)). injection Hact as ->. eauto.
  - apply IH. intros B' HB'. apply Hall. by right.
Qed.

Lemma bundleActions_observed (Assume : Instruction)
    (Key : option Value * AttrKind) BOIs acts B (Val : Z) :
  bundleActions Assume BOIs = Ok acts →
  B ∈ BOIs →
  bundleKey Assume B = Ok Key →
  ¬ (Key.1 = None ∧ Key.2 = Attribute_None) →
  bundleHasArgument B ABA_Argument = true →
  bundleVal Assume B = Ok Val →
  ActObserve Key Val ∈ acts.
Proof.
  intros Hacts HB HK Hne Harg HVal.
  destruct (bundleActions_touching _ _ _ _ _ Hacts HB HK Hne)
    as (act & Hin & Hact & HactK).
  destruct act as [|K|K w]; simpl in *; [done| |].
  - apply bundleAction_reset_inv in Hact. congruence.
  - injection HactK as ->.
    apply bundleAction_observe_inv in Hact as [_ Hw].
    rewrite HVal in Hw. by injection Hw as ->.
Qed.

(** X7: when every bundle of a key has an Argument slot, the pair that
    [fillMapFromAssume] leaves for the key and the assume contains the
    32-bit argument of each of these bundles. *)
Theorem fillMapFromAssume_envelope (AssumeCI : Instruction)
    (Key : option Value * AttrKind) (B : BundleOpInfo) (Val : Z)
    (Result Result' : gmap (option Value * AttrKind) (gmap nat MinMax)) :
  fillMapFromAssume AssumeCI Result = Ok Result' →
  (∀ B', B' ∈ bundle_op_infos AssumeCI → bundleKey AssumeCI B' = Ok Key →
         bundleHasArgument B' ABA_Argument = true) →
  B ∈ bundle_op_infos AssumeCI →
  bundleKey AssumeCI B = Ok Key →
  ¬ (Key.1 = None ∧ Key.2 = Attribute_None) →
  bundleVal AssumeCI B = Ok Val →
  ∃ MM, lookupMinMax Result' Key AssumeCI = Some MM ∧
        Min MM ≤ Val ≤ Max MM.
Proof.
  intros (_ & acts & Hacts & ->)%fillMapFromAssume_Ok Hall HB HK Hne HVal.
  rewrite lookupMinMax_foldl_applyAction.
  apply foldl_applyEntry_envelope.
  - by eapply bundleActions_observe_only.
  - left. eapply bundleActions_observed; try done. by apply Hall.
Qed.

Lemma applyAction_Map_bounded (a : nat) (act : BundleAction)
    (Result : gmap (option Value * AttrKind) (gmap nat MinMax)) :
  Map_bounded Result →
  (∀ Key Val, act = ActObserve Key Val → 0 ≤ Val < 2 ^ 32) →
  Map_bounded (applyAction a Result act).
Proof.
  intros Hok Hval Key Inner a' MM. rewrite lookup_applyAction.
  unfold applyInner. case_bool_decide; [|apply Hok].
  intros [= <-]. rewrite lookup_insert. case_decide as Ha.
  - intros [= <-]. destruct act as [| |K Val]; simpl; [lia..|].
    specialize (Hval K Val eq_refl).
    destruct (Result !! Key) as [Inner|] eqn:HK; simpl; [|lia].
    destruct (Inner !! a) as [MM|] eqn:HMM; simpl; [|lia].
    specialize (Hok Key Inner a MM HK HMM). lia.
  - destruct (Result !! Key) as [Inner|] eqn:HK; simpl; [|done].
    by apply (Hok Key Inner a' MM).
Qed.

(** X8: [fillMapFromAssume] records 32-bit bounds only: when every bound of
    the map lies in [0, 2^32) before the call, so does every bound
    after it. *)
Theorem fillMapFromAssume_Map_bounded (AssumeCI : Instruction)
    (Result Result' : gmap (option Value * AttrKind) (gmap nat MinMax)) :
  fillMapFromAssume AssumeCI Result = Ok Result' →
  Map_bounded Result → Map_bounded Result'.
Proof.
  intros (_ & acts & Hacts%bundleActions_Forall2 & ->)%fillMapFromAssume_Ok.
  revert Result.
  induction Hacts as [|B act BOIs acts Hact _ IH]; intros Result Hok; [done|].
  simpl. apply IH. apply applyAction_Map_bounded; [done|].
  intros Key Val ->.
  apply bundleAction_observe_inv in Hact as [_ HVal].
  by apply bundleVal_bounded in HVal.
Qed.

(** X9: a bundle without operand whose tag decodes to no attribute kind
    carries nothing to index: on an assume that has such bundles only, among
    them an assume without bundle, [fillMapFromAssume] succeeds and leaves
    the map as it was. *)
Theorem fillMapFromAssume_empty_keys (AssumeCI : Instruction)
    (Result : gmap (option Value * AttrKind) (gmap nat MinMax)) :
  isAssume AssumeCI = true →
  Forall (λ B, bundleHasArgument B ABA_WasOn = false ∧
               getAttrKindFromName (BOI_Tag B) = Attribute_None)
         (bundle_op_infos AssumeCI) →
  fillMapFromAssume AssumeCI Result = Ok Result.
Proof.
  intros HA Hall. unfold fillMapFromAssume.
  rewrite (isAssume_intrinsic _ HA), HA. simpl.
  induction Hall as [|B rest [HB HK] _ IH]; [done|].
  simpl. unfold fillMapFromAssume_body at 1. rewrite HB. simpl.
  by rewrite bool_decide_eq_true_2.
Qed.

Lemma fillMapFromAssume_body_bad_argument (Assume : Instruction)
    (B : BundleOpInfo)
    (Result : gmap (option Value * AttrKind) (gmap nat MinMax)) :
  bundleHasArgument B ABA_Argument = true →
  bundleArgument Assume B = Fatal →
  fillMapFromAssume_body Assume B Result = Fatal.
Proof.
  intros Harg Hfatal. rewrite fillMapFromAssume_body_action.
  unfold bundleAction, bundleKey.
  assert (HW : bundleHasArgument B ABA_WasOn = true).
  { unfold bundleHasArgument, ABA_WasOn, ABA_Argument in *.
    apply bool_decide_eq_true in Harg. apply bool_decide_eq_true.
    by apply (Z.lt_trans 0 1). }
  rewrite HW.
  destruct (getValueFromBundleOpInfo Assume B ABA_WasOn) as [V|]; simpl;
    [|done].
  rewrite Harg. simpl. unfold bundleVal. by rewrite Hfatal.
Qed.

(** X10: a bundle whose Argument slot holds a value that is no integer
    constant of at most 64 bits makes both [fillMapFromAssume] on its assume
    and [getKnowledgeFromBundle] on it fail fatally. *)
Theorem bad_argument_fatal (AssumeCI : Instruction) (B : BundleOpInfo)
    (Result : gmap (option Value * AttrKind) (gmap nat MinMax)) :
  B ∈ bundle_op_infos AssumeCI →
  bundleHasArgument B ABA_Argument = true →
  bundleArgument AssumeCI B = Fatal →
  fillMapFromAssume AssumeCI Result = Fatal ∧
  getKnowledgeFromBundle AssumeCI B = Fatal.
Proof.
  intros HB Harg Hfatal. split.
  - unfold fillMapFromAssume.
    destruct (bool_decide (is_Some (inst_intrinsic AssumeCI))); simpl; [|done].
    destruct (isAssume AssumeCI); simpl; [|done].
    revert Result.
    induction (bundle_op_infos AssumeCI) as [|B0 rest IH]; intros Result.
    + by apply elem_of_nil in HB.
    + simpl. apply elem_of_cons in HB as [<- | HB].
      * by rewrite fillMapFromAssume_body_bad_argument.
      * destruct (fillMapFromAssume_body AssumeCI B0 Result); simpl; [|done].
        by apply IH.
  - unfold getKnowledgeFromBundle.
    destruct (if bundleHasArgument B ABA_WasOn then _ else _) as [W|];
      simpl; [|done].
    unfold bundleHasArgument in Harg. rewrite Harg.
    unfold bundleArgument in Hfatal.
    destruct (getValueFromBundleOpInfo AssumeCI B ABA_Argument) as [V|];
      simpl in *; [|done].
    by rewrite Hfatal.
Qed.

(** X11: [fillMapFromAssume] files a bundle under what
    [getKnowledgeFromBundle] decodes from it.  The key is the pair of the
    decoded WasOn and kind; when both are none the bundle is skipped, and
    otherwise a pair is recorded which, if there was none before, holds
    the decoded argument on 32 bits, or (0, 0) when the bundle has no
    argument. *)
Theorem fillMapFromAssume_body_knowledge (Assume : Instruction)
    (B : BundleOpInfo) (RK : RetainedKnowledge)
    (Result : gmap (option Value * AttrKind) (gmap nat MinMax)) :
  getKnowledgeFromBundle Assume B = Ok RK →
  let Key := (RK_WasOn RK, RK_AttrKind RK) in
  if bool_decide (RK_WasOn RK = None ∧ RK_AttrKind RK = Attribute_None)
  then fillMapFromAssume_body Assume B Result = Ok Result
  else
    ∃ Result',
      fillMapFromAssume_body Assume B Result = Ok Result' ∧
      is_Some (lookupMinMax Result' Key Assume) ∧
      (lookupMinMax Result Key Assume = None →
       lookupMinMax Result' Key Assume
       = Some match RK_ArgValue RK with
              | Some z => {| Min := z `mod` 2 ^ 32; Max := z `mod` 2 ^ 32 |}
              | None => {| Min := 0; Max := 0 |}
              end).
Proof.
  unfold getKnowledgeFromBundle.
  intros (W & HW & (Arg & HArg & [= <-])%bind_Ok)%bind_Ok. simpl.
  rewrite fillMapFromAssume_body_action. unfold bundleAction, bundleKey.
  rewrite HW. simpl.
  fold (bundleHasArgument B ABA_Argument) in HArg.
  destruct (bool_decide (W = None ∧ _)) eqn:Hempty; simpl; [done|].
  apply bool_decide_eq_false in Hempty.
  destruct (bundleHasArgument B ABA_Argument); simpl.
  - apply bind_Ok in HArg as (V & HV & HArg).
    destruct (getZExtValue V) as [z|] eqn:Hz; simpl in HArg; [|done].
    injection HArg as <-.
    unfold bundleVal, bundleArgument. rewrite HV. simpl. rewrite Hz. simpl.
    eexists. split; [done|]. rewrite lookupMinMax_applyAction.
    unfold applyEntry. simpl. rewrite bool_decide_eq_true_2 by done.
    split; [eauto|]. by intros ->.
  - injection HArg as <-.
    eexists. split; [done|]. rewrite lookupMinMax_applyAction.
    unfold applyEntry. simpl. rewrite bool_decide_eq_true_2 by done.
    split; [eauto|]. done.
Qed.

(** X12: what [hasAttributeInAssume] reports for a value is within what
    [fillMapFromAssume] records for it.  When the query on [V] and the
    attribute answers true with the argument [z], and every bundle of the
    key has an Argument slot, the pair recorded for the key ([V], kind of
    the attribute) and the assume contains [z] taken on 32 bits. *)
Theorem hasAttributeInAssume_within_fillMapFromAssume
    (AssumeCI : Instruction) (V : Value) (AttrName : string) (old z : Z)
    (Result Result' : gmap (option Value * AttrKind) (gmap nat MinMax)) :
  let Key := (Some V, getAttrKindFromName AttrName) in
  hasAttributeInAssume AssumeCI (Some V) AttrName (Some old)
  = Ok (true, Some z) →
  fillMapFromAssume AssumeCI Result = Ok Result' →
  (∀ B, B ∈ bundle_op_infos AssumeCI → bundleKey AssumeCI B = Ok Key →
        bundleHasArgument B ABA_Argument = true) →
  ∃ MM, lookupMinMax Result' Key AssumeCI = Some MM ∧
        Min MM ≤ z `mod` 2 ^ 32 ≤ Max MM.
Proof.
  intros Key (_ & _ & _ & Hloop)%hasAttributeInAssume_Ok Hfill Hall.
  apply hasAttributeInAssume_loop_Ok in Hloop
    as (pre & B & post & Hsplit & _ & [Htag Hon] & z' & Hz & [= <-]).
  specialize (Hon V eq_refl).
  assert (HB : B ∈ bundle_op_infos AssumeCI).
  { rewrite Hsplit. apply elem_of_app. right. left. }
  assert (HK : bundleKey AssumeCI B = Ok Key).
  { unfold bundleKey.
    apply getValueFromBundleOpInfo_Ok in Hon as Hon'. destruct Hon' as [-> _].
    rewrite Hon. simpl. by rewrite Htag. }
  assert (Hne : ¬ (Key.1 = None ∧ Key.2 = Attribute_None)).
  { simpl. by intros [[=] _]. }
  assert (HVal : bundleVal AssumeCI B = Ok (z `mod` 2 ^ 32)).
  { unfold bundleVal. by rewrite Hz. }
  apply fillMapFromAssume_Ok in Hfill as (_ & acts & Hacts & ->).
  rewrite lookupMinMax_foldl_applyAction.
  apply foldl_applyEntry_envelope.
  - by eapply bundleActions_observe_only.
  - left. eapply bundleActions_observed; try done. by apply Hall.
Qed.

(** ** getKnowledgeFromBundle and getKnowledgeFromOperandInAssume *)

Lemma length_bundleSlots Assume B :
  BOI_wf B → BOI_End B ≤ Z.of_nat (length (inst_operands Assume)) →
  Z.of_nat (length (bundleSlots Assume B)) = BOI_End B - BOI_Begin B.
Proof.
  unfold BOI_wf, bundleSlots. intros Hwf Hlen.
  rewrite length_take, length_drop. lia.
Qed.

Lemma getValueFromBundleOpInfo_slots Assume B (i : nat) :
  BOI_wf B → BOI_End B ≤ Z.of_nat (length (inst_operands Assume)) →
  getValueFromBundleOpInfo Assume B (Z.of_nat i)
  = match bundleSlots Assume B !! i with
    | Some V => Ok V
    | None => Fatal
    end.
Proof.
  intros Hwf Hlen. pose proof (length_bundleSlots _ _ Hwf Hlen) as Hn.
  unfold getValueFromBundleOpInfo, bundleHasArgument.
  rewrite slot_count_wf by done. unfold BOI_wf in Hwf.
  case_bool_decide as Hi; simpl.
  - unfold bundleSlots. rewrite lookup_take_lt by lia. rewrite lookup_drop.
    replace (Z.to_nat (BOI_Begin B + Z.of_nat i))
      with (Z.to_nat (BOI_Begin B) + i)%nat by lia.
    done.
  - by rewrite lookup_ge_None_2 by lia.
Qed.

(** X13: [getKnowledgeFromBundle] decodes the tag and the first two slots
    of a bundle and nothing else.  A bundle without slot gives the kind
    alone, a bundle with one slot the kind and WasOn, and with two slots or
    more the argument is the integer constant in the second slot; only that
    slot can make the decoding fail. *)
Theorem getKnowledgeFromBundle_slots (Assume : Instruction)
    (B : BundleOpInfo) :
  BOI_wf B → BOI_End B ≤ Z.of_nat (length (inst_operands Assume)) →
  getKnowledgeFromBundle Assume B
  = let Kind := getAttrKindFromName (BOI_Tag B) in
    match bundleSlots Assume B with
    | [] => Ok {| RK_AttrKind := Kind; RK_ArgValue := None;
                  RK_WasOn := None |}
    | [V] => Ok {| RK_AttrKind := Kind; RK_ArgValue := None;
                   RK_WasOn := Some V |}
    | V :: C :: _ =>
        z ← getZExtValue C;
        Ok {| RK_AttrKind := Kind; RK_ArgValue := Some z;
              RK_WasOn := Some V |}
    end.
Proof.
  intros Hwf Hlen. pose proof (length_bundleSlots _ _ Hwf Hlen) as Hn.
  pose proof (getValueFromBundleOpInfo_slots Assume B 0 Hwf Hlen) as H0.
  pose proof (getValueFromBundleOpInfo_slots Assume B 1 Hwf Hlen) as H1.
  unfold getKnowledgeFromBundle, bundleHasArgument, ABA_WasOn, ABA_Argument.
  change (Z.of_nat 0) with 0 in H0. change (Z.of_nat 1) with 1 in H1.
  rewrite H0, H1, slot_count_wf by done. rewrite <- Hn.
  destruct (bundleSlots Assume B) as [|V [|C rest]]; simpl length; simpl.
  - done.
  - done.
  - rewrite !bool_decide_eq_true_2 by lia. simpl.
    by destruct (getZExtValue C).
Qed.

(** X14: on an assume with a well-formed bundle table,
    [getKnowledgeFromOperandInAssume] gives for every operand position of a
    bundle what [getKnowledgeFromBundle] gives for that bundle, and fails
    fatally for an operand position that no bundle owns, such as the
    condition. *)
Theorem getKnowledgeFromOperandInAssume_owner (AssumeCI : Instruction) :
  isAssume AssumeCI = true →
  bundlesSorted 1 (bundle_op_infos AssumeCI) = true →
  (∀ (B : BundleOpInfo) (Idx : nat),
     B ∈ bundle_op_infos AssumeCI →
     BOI_Begin B ≤ Z.of_nat Idx < BOI_End B →
     getKnowledgeFromOperandInAssume AssumeCI Idx
     = getKnowledgeFromBundle AssumeCI B) ∧
  (∀ Idx : nat,
     Forall (λ B, ¬ (BOI_Begin B ≤ Z.of_nat Idx < BOI_End B))
            (bundle_op_infos AssumeCI) →
     getKnowledgeFromOperandInAssume AssumeCI Idx = Fatal) ∧
  getKnowledgeFromOperandInAssume AssumeCI 0 = Fatal.
Proof.
  intros HA Hs. unfold getKnowledgeFromOperandInAssume.
  rewrite (isAssume_intrinsic _ HA), HA. simpl.
  assert (Hnone : ∀ Idx : nat,
    Forall (λ B, ¬ (BOI_Begin B ≤ Z.of_nat Idx < BOI_End B))
           (bundle_op_infos AssumeCI) →
    getBundleOpInfoForOperand AssumeCI Idx ≫= getKnowledgeFromBundle AssumeCI
    = Fatal).
  { intros Idx Hall. unfold getBundleOpInfoForOperand.
    by rewrite find_no_owner. }
  split_and!.
  - intros B Idx HB HIdx.
    by rewrite (getBundleOpInfoForOperand_owner _ B).
  - done.
  - apply Hnone. apply Forall_forall. intros B HB.
    pose proof (bundlesSorted_lower _ _ _ Hs HB). simpl. lia.
Qed.

(** ** Use-site resolution *)

(** X15: a use resolves to no bundle, without failure, when its user is not
    an assume and when the used value is the condition of the assume, as
    for the use in operand 0; [getKnowledgeFromUse] then returns the none
    record. *)
Theorem use_outside_bundles (U : Use) (AttrKinds : list AttrKind) :
  isAssume (U_user U) = false ∨
  getArgOperand (U_user U) 0 = Use_get U ∨
  U_operandNo U = 0%nat →
  getBundleFromUse U = Ok None ∧
  getKnowledgeFromUse U AttrKinds = Ok RK_none.
Proof.
  intros Hout.
  assert (HN : getBundleFromUse U = Ok None).
  { unfold getBundleFromUse.
    destruct Hout as [-> | Hcond]; [done|].
    rewrite bool_decide_eq_false_2, andb_false_r; [done|].
    intros Hne. apply Hne. destruct Hcond as [? | Hz]; [done|].
    unfold getArgOperand, Use_get. by rewrite Hz. }
  split; [done|]. unfold getKnowledgeFromUse. by rewrite HN.
Qed.

Lemma existsb_is_contained (AttrKinds : list AttrKind) (K : AttrKind) :
  existsb (λ Attr, bool_decide (Attr = K)) AttrKinds
  = is_contained AttrKinds K.
Proof.
  unfold is_contained. apply eq_true_iff_eq.
  rewrite existsb_exists, bool_decide_eq_true. split.
  - intros (K' & HK'%list_elem_of_In & ->%bool_decide_eq_true). done.
  - intros HK. exists K. split; [by apply list_elem_of_In|].
    by apply bool_decide_eq_true.
Qed.

Lemma getBundleFromUse_Some_inv U B :
  getBundleFromUse U = Ok (Some B) →
  isAssume (U_user U) = true ∧
  getArgOperand (U_user U) 0 ≠ Use_get U ∧
  getBundleOpInfoForOperand (U_user U) (U_operandNo U) = Ok B.
Proof.
  unfold getBundleFromUse.
  destruct (isAssume (U_user U)); simpl; [|done].
  case_bool_decide as Hcond; simpl; [|done].
  destruct (getBundleOpInfoForOperand _ _) as [B'|]; simpl; [|done].
  by intros [= ->].
Qed.

(** X16: what [getKnowledgeFromUse] returns, other than the none record,
    is decoded from the bundle of an assume that owns the use, and its kind
    is one of the wanted kinds. *)
Theorem getKnowledgeFromUse_sound (U : Use) (AttrKinds : list AttrKind)
    (RK : RetainedKnowledge) :
  getKnowledgeFromUse U AttrKinds = Ok RK →
  RK ≠ RK_none →
  isAssume (U_user U) = true ∧
  getArgOperand (U_user U) 0 ≠ Use_get U ∧
  ∃ B, getBundleOpInfoForOperand (U_user U) (U_operandNo U) = Ok B ∧
       getKnowledgeFromBundle (U_user U) B = Ok RK ∧
       RK_AttrKind RK ∈ AttrKinds.
Proof.
  unfold getKnowledgeFromUse.
  destruct (getBundleFromUse U) as [[B|]|] eqn:HB; simpl; [| |done].
  - destruct (getKnowledgeFromBundle (U_user U) B) as [RK'|] eqn:HRK;
      simpl; [|done].
    rewrite existsb_is_contained.
    destruct (is_contained AttrKinds (RK_AttrKind RK')) eqn:Hin;
      intros [= <-] Hne; [|done].
    apply getBundleFromUse_Some_inv in HB as (HA & Hcond & HO).
    split_and!; [done..|]. exists B. split_and!; [done..|].
    by apply bool_decide_eq_true in Hin.
  - by intros [= <-] Hne.
Qed.

(** X17: [getKnowledgeFromUse] is the use-scan of [getKnowledgeForValue]
    on the one use, with a filter that accepts everything, whenever the
    none kind is not among the wanted kinds. *)
Theorem getKnowledgeFromUse_as_scan (uses : Value → list Use) (V : Value)
    (U : Use) (AttrKinds : list AttrKind) :
  uses V = [U] →
  Attribute_None ∉ AttrKinds →
  getKnowledgeForValue uses V AttrKinds None (λ _ _ _, true)
  = getKnowledgeFromUse U AttrKinds.
Proof.
  intros HU Hnone. unfold getKnowledgeForValue, getKnowledgeFromUse.
  rewrite HU. simpl.
  destruct (getBundleFromUse U) as [[B|]|]; simpl; [|done..].
  destruct (getKnowledgeFromBundle (U_user U) B) as [RK|]; simpl; [|done].
  rewrite existsb_is_contained, andb_true_r.
  destruct (is_contained AttrKinds (RK_AttrKind RK)) eqn:Hin;
    [|by rewrite andb_false_r].
  rewrite andb_true_r. unfold RK_bool. rewrite bool_decide_eq_true_2; [done|].
  intros Heq. apply Hnone. rewrite <- Heq.
  by apply bool_decide_eq_true in Hin.
Qed.

(** ** Value-wide knowledge search *)

Lemma candidateAccepted_not_none AttrKinds Filter RK Inst BOI :
  candidateAccepted AttrKinds Filter RK Inst BOI = true → RK ≠ RK_none.
Proof.
  unfold candidateAccepted.
  intros [[Hb%bool_decide_eq_true _]%andb_true_iff _]%andb_true_iff ->.
  by apply Hb.
Qed.

Lemma getKnowledgeForValue_indexed_accepted AttrKinds Filter Elems RK :
  getKnowledgeForValue_indexed AttrKinds Filter Elems = Ok RK →
  RK ≠ RK_none →
  ∃ Elem Inst BOI,
    Elem ∈ Elems ∧ RE_Assume Elem = Some Inst ∧
    RE_Index Elem ≠ ExprResultIdx ∧
    bundle_op_infos Inst !! Z.to_nat (RE_Index Elem) = Some BOI ∧
    getKnowledgeFromBundle Inst BOI = Ok RK ∧
    candidateAccepted AttrKinds Filter RK Inst BOI = true.
Proof.
  intros Hres Hne. induction Elems as [|Elem rest IH]; simpl in Hres.
  { by injection Hres as <-. }
  assert (Hrest : getKnowledgeForValue_indexed AttrKinds Filter rest = Ok RK →
    ∃ Elem' Inst BOI,
      Elem' ∈ Elem :: rest ∧ RE_Assume Elem' = Some Inst ∧
      RE_Index Elem' ≠ ExprResultIdx ∧
      bundle_op_infos Inst !! Z.to_nat (RE_Index Elem') = Some BOI ∧
      getKnowledgeFromBundle Inst BOI = Ok RK ∧
      candidateAccepted AttrKinds Filter RK Inst BOI = true).
  { intros (E & Inst & BOI & HE & Hrem)%IH. exists E, Inst, BOI.
    split; [by right | done]. }
  destruct (RE_Assume Elem) as [Inst|] eqn:HInst; simpl in Hres; [|auto].
  destruct (bool_decide (is_Some (inst_intrinsic Inst))); simpl in Hres;
    [|done].
  destruct (bool_decide (RE_Index Elem = ExprResultIdx)) eqn:Hidx; [auto|].
  apply bool_decide_eq_false in Hidx.
  destruct (bundle_op_infos Inst !! _) as [BOI|] eqn:HBOI; [|done].
  destruct (getKnowledgeFromBundle Inst BOI) as [RK'|] eqn:HRK;
    simpl in Hres; [|done].
  fold (candidateAccepted AttrKinds Filter RK' Inst BOI) in Hres.
  destruct (candidateAccepted AttrKinds Filter RK' Inst BOI) eqn:Hacc; [|auto].
  injection Hres as ->. exists Elem, Inst, BOI. split_and!; [left | done..].
Qed.

Lemma getKnowledgeForValue_uses_accepted AttrKinds Filter Uses RK :
  getKnowledgeForValue_uses AttrKinds Filter Uses = Ok RK →
  RK ≠ RK_none →
  ∃ U BOI,
    U ∈ Uses ∧ getBundleFromUse U = Ok (Some BOI) ∧
    getKnowledgeFromBundle (U_user U) BOI = Ok RK ∧
    candidateAccepted AttrKinds Filter RK (U_user U) BOI = true.
Proof.
  intros Hres Hne. induction Uses as [|U rest IH]; simpl in Hres.
  { by injection Hres as <-. }
  assert (Hrest : getKnowledgeForValue_uses AttrKinds Filter rest = Ok RK →
    ∃ U' BOI,
      U' ∈ U :: rest ∧ getBundleFromUse U' = Ok (Some BOI) ∧
      getKnowledgeFromBundle (U_user U') BOI = Ok RK ∧
      candidateAccepted AttrKinds Filter RK (U_user U') BOI = true).
  { intros (U' & BOI & HU' & Hrem)%IH. exists U', BOI.
    split; [by right | done]. }
  destruct (getBundleFromUse U) as [[BOI|]|] eqn:HB; simpl in Hres;
    [|auto|done].
  destruct (getKnowledgeFromBundle (U_user U) BOI) as [RK'|] eqn:HRK;
    simpl in Hres; [|done].
  fold (candidateAccepted AttrKinds Filter RK' (U_user U) BOI) in Hres.
  destruct (candidateAccepted AttrKinds Filter RK' (U_user U) BOI) eqn:Hacc;
    [|auto].
  injection Hres as ->. exists U, BOI. split_and!; [left | done..].
Qed.

(** X18: the knowledge [getKnowledgeForValue] returns, other than the none
    record, is decoded from a bundle that the path it took lists for the
    value (an entry of the index that is no placeholder, or a use that
    resolves to the bundle), it is of a wanted kind, and the filter
    accepts it. *)
Theorem getKnowledgeForValue_sound (uses : Value → list Use) (V : Value)
    (AttrKinds : list AttrKind) (AC : option (Value → list ResultElem))
    (Filter : RetainedKnowledge → Instruction → BundleOpInfo → bool)
    (RK : RetainedKnowledge) :
  getKnowledgeForValue uses V AttrKinds AC Filter = Ok RK →
  RK ≠ RK_none →
  ∃ Inst BOI,
    getKnowledgeFromBundle Inst BOI = Ok RK ∧
    RK_AttrKind RK ∈ AttrKinds ∧
    Filter RK Inst BOI = true ∧
    match AC with
    | Some assumptionsFor =>
        ∃ Elem, Elem ∈ assumptionsFor V ∧ RE_Assume Elem = Some Inst ∧
                RE_Index Elem ≠ ExprResultIdx ∧
                bundle_op_infos Inst !! Z.to_nat (RE_Index Elem) = Some BOI
    | None =>
        ∃ U, U ∈ uses V ∧ U_user U = Inst ∧
             getBundleFromUse U = Ok (Some BOI)
    end.
Proof.
  unfold getKnowledgeForValue. destruct AC as [assumptionsFor|].
  - intros Hres Hne.
    destruct (getKnowledgeForValue_indexed_accepted _ _ _ _ Hres Hne)
      as (E & Inst & BOI & HE & HI & Hidx & HB & HRK & Hacc).
    exists Inst, BOI. unfold candidateAccepted in Hacc.
    apply andb_true_iff in Hacc as [[_ Hin%bool_decide_eq_true]%andb_true_iff HF].
    split_and!; [done..|]. by exists E.
  - intros Hres Hne.
    destruct (getKnowledgeForValue_uses_accepted _ _ _ _ Hres Hne)
      as (U & BOI & HU & HB & HRK & Hacc).
    exists (U_user U), BOI. unfold candidateAccepted in Hacc.
    apply andb_true_iff in Hacc as [[_ Hin%bool_decide_eq_true]%andb_true_iff HF].
    split_and!; [done..|]. by exists U.
Qed.


Lemma getKnowledgeForValue_uses_passed AttrKinds Filter U rest :
  usePassedOver AttrKinds Filter U →
  getKnowledgeForValue_uses AttrKinds Filter (U :: rest)
  = getKnowledgeForValue_uses AttrKinds Filter rest.
Proof.
  intros [HN | (BOI & RK & HB & HRK & Hacc)]; simpl.
  - by rewrite HN.
  - rewrite HB. simpl. rewrite HRK. simpl.
    unfold candidateAccepted in Hacc. by rewrite Hacc.
Qed.

(** X20: the use-scan of [getKnowledgeForValue] returns the knowledge of
    the first use, in the order of the use-list, whose bundle decodes to a
    knowledge of a wanted kind that the filter accepts. *)
Theorem getKnowledgeForValue_first_use (uses : Value → list Use)
    (V : Value) (AttrKinds : list AttrKind)
    (Filter : RetainedKnowledge → Instruction → BundleOpInfo → bool)
    (pre post : list Use) (U : Use) (BOI : BundleOpInfo)
    (RK : RetainedKnowledge) :
  uses V = pre ++ U :: post →
  Forall (usePassedOver AttrKinds Filter) pre →
  getBundleFromUse U = Ok (Some BOI) →
  getKnowledgeFromBundle (U_user U) BOI = Ok RK →
  candidateAccepted AttrKinds Filter RK (U_user U) BOI = true →
  getKnowledgeForValue uses V AttrKinds None Filter = Ok RK.
Proof.
  intros HU Hpre HB HRK Hacc. unfold getKnowledgeForValue. rewrite HU.
  clear HU. induction Hpre as [|U0 pre HU0 _ IH]; simpl app.
  - simpl. rewrite HB. simpl. rewrite HRK. simpl.
    unfold candidateAccepted in Hacc. by rewrite Hacc.
  - by rewrite getKnowledgeForValue_uses_passed.
Qed.

Lemma getKnowledgeForValue_indexed_skipped AttrKinds Filter Elem rest :
  elemSkipped Elem →
  getKnowledgeForValue_indexed AttrKinds Filter (Elem :: rest)
  = getKnowledgeForValue_indexed AttrKinds Filter rest.
Proof.
  intros [HN | (Inst & HI & Hintr & Hidx)]; simpl.
  - by rewrite HN.
  - rewrite HI. simpl. rewrite (bool_decide_eq_true_2 _ Hintr). simpl.
    by rewrite (bool_decide_eq_true_2 _ Hidx).
Qed.

Lemma getKnowledgeForValue_indexed_passed AttrKinds Filter Elem rest :
  elemPassedOver AttrKinds Filter Elem →
  getKnowledgeForValue_indexed AttrKinds Filter (Elem :: rest)
  = getKnowledgeForValue_indexed AttrKinds Filter rest.
Proof.
  intros [Hskip | (Inst & BOI & RK & HI & Hintr & Hidx & HB & HRK & Hacc)].
  - by apply getKnowledgeForValue_indexed_skipped.
  - simpl. rewrite HI. simpl. rewrite (bool_decide_eq_true_2 _ Hintr). simpl.
    rewrite (bool_decide_eq_false_2 _ Hidx). rewrite HB, HRK. simpl.
    unfold candidateAccepted in Hacc. by rewrite Hacc.
Qed.

(** X21: the indexed path of [getKnowledgeForValue] returns the knowledge
    of the first entry, in the order of the index, that is no placeholder
    and whose bundle decodes to a knowledge of a wanted kind that the filter
    accepts. *)
Theorem getKnowledgeForValue_first_entry (uses : Value → list Use)
    (assumptionsFor : Value → list ResultElem) (V : Value)
    (AttrKinds : list AttrKind)
    (Filter : RetainedKnowledge → Instruction → BundleOpInfo → bool)
    (pre post : list ResultElem) (Elem : ResultElem) (Inst : Instruction)
    (BOI : BundleOpInfo) (RK : RetainedKnowledge) :
  assumptionsFor V = pre ++ Elem :: post →
  Forall (elemPassedOver AttrKinds Filter) pre →
  RE_Assume Elem = Some Inst →
  is_Some (inst_intrinsic Inst) →
  RE_Index Elem ≠ ExprResultIdx →
  bundle_op_infos Inst !! Z.to_nat (RE_Index Elem) = Some BOI →
  getKnowledgeFromBundle Inst BOI = Ok RK →
  candidateAccepted AttrKinds Filter RK Inst BOI = true →
  getKnowledgeForValue uses V AttrKinds (Some assumptionsFor) Filter = Ok RK.
Proof.
  intros HE Hpre HI Hintr Hidx HB HRK Hacc. unfold getKnowledgeForValue.
  rewrite HE. clear HE. induction Hpre as [|E0 pre HE0 _ IH]; simpl app.
  - simpl. rewrite HI. simpl. rewrite (bool_decide_eq_true_2 _ Hintr). simpl.
    rewrite (bool_decide_eq_false_2 _ Hidx). rewrite HB, HRK. simpl.
    unfold candidateAccepted in Hacc. by rewrite Hacc.
  - by rewrite getKnowledgeForValue_indexed_passed.
Qed.

Lemma getKnowledgeForValue_indexed_app_inv AttrKinds Filter pre Elems Elems' :
  getKnowledgeForValue_indexed AttrKinds Filter Elems
  = getKnowledgeForValue_indexed AttrKinds Filter Elems' →
  getKnowledgeForValue_indexed AttrKinds Filter (pre ++ Elems)
  = getKnowledgeForValue_indexed AttrKinds Filter (pre ++ Elems').
Proof.
  intros Heq. induction pre as [|E pre IH]; [done|].
  simpl. by rewrite IH.
Qed.

(** X22: the entries of the index whose handle is null and the
    expression-result placeholders of intrinsic calls have no effect on the
    indexed path of [getKnowledgeForValue]: with or without such an entry
    the result is the same. *)
Theorem getKnowledgeForValue_skips_placeholders (uses : Value → list Use)
    (V : Value) (AttrKinds : list AttrKind)
    (Filter : RetainedKnowledge → Instruction → BundleOpInfo → bool)
    (pre post : list ResultElem) (Elem : ResultElem) :
  elemSkipped Elem →
  getKnowledgeForValue uses V AttrKinds (Some (λ _, pre ++ Elem :: post))
    Filter
  = getKnowledgeForValue uses V AttrKinds (Some (λ _, pre ++ post)) Filter.
Proof.
  intros Hskip. unfold getKnowledgeForValue.
  apply getKnowledgeForValue_indexed_app_inv.
  by apply getKnowledgeForValue_indexed_skipped.
Qed.

(** ** An assume that holds ignore bundles only *)

(** X23: an assume for which [isAssumeWithEmptyBundle] holds carries no
    attribute: [hasAttributeInAssume] answers false, leaving the output as
    it was, for every attribute name other than the ignore tag; and when
    the ignore tag decodes to no attribute kind, every knowledge decoded
    from its bundles is of the none kind. *)
Theorem isAssumeWithEmptyBundle_no_knowledge (CI : Instruction) :
  isAssumeWithEmptyBundle CI = Ok true →
  (∀ (IsOn : option Value) (AttrName : string) (ArgVal : option Z),
     AttrName ≠ IgnoreBundleTag →
     isExistingAttribute AttrName = true →
     ArgVal = None ∨
     doesAttrKindHaveArgument (getAttrKindFromName AttrName) = true →
     hasAttributeInAssume CI IsOn AttrName ArgVal = Ok (false, ArgVal)) ∧
  (getAttrKindFromName IgnoreBundleTag = Attribute_None →
   ∀ B RK, B ∈ bundle_op_infos CI →
           getKnowledgeFromBundle CI B = Ok RK → RK_bool RK = false).
Proof.
  unfold isAssumeWithEmptyBundle.
  intros (_ & _ & (_ & HA%assert_true & Hall)%bind_Ok)%bind_Ok.
  injection Hall as Hall. apply negb_true_iff in Hall.
  assert (Htags : ∀ B, B ∈ bundle_op_infos CI → BOI_Tag B = IgnoreBundleTag).
  { intros B HB. destruct (decide (BOI_Tag B = IgnoreBundleTag)) as [|Hne];
      [done|].
    assert (existsb (λ BOI, bool_decide (BOI_Tag BOI ≠ IgnoreBundleTag))
                    (bundle_op_infos CI) = true); [|congruence].
    apply existsb_exists. exists B. split; [by apply list_elem_of_In|].
    by apply bool_decide_eq_true. }
  split.
  - intros IsOn AttrName ArgVal Hname Hex Harg.
    rewrite hasAttributeInAssume_asserts by done.
    apply hasAttributeInAssume_loop_all_rejected.
    apply Forall_forall. intros B HB. left. rewrite (Htags B HB). congruence.
  - intros Hkind B RK HB.
    unfold getKnowledgeFromBundle.
    intros (W & _ & (Arg & _ & [= <-])%bind_Ok)%bind_Ok.
    unfold RK_bool. simpl. rewrite (Htags B HB), Hkind.
    apply bool_decide_eq_false_2. by intros Hne.
Qed.

End MoreProperties.

(** * Further examples *)

Module MoreExamples.
Import Sample MoreSample.
#[local] Existing Instance registry.

Lemma elem_of_three {A} (x a b c : A) (P : A → Prop) :
  P a → P b → P c → x ∈ [a; b; c] → P x.
Proof.
  intros Ha Hb Hc Hx.
  apply elem_of_cons in Hx as [-> | Hx]; [done|].
  apply elem_of_cons in Hx as [-> | Hx]; [done|].
  apply elem_of_cons in Hx as [-> | Hx]; [done|].
  by apply elem_of_nil in Hx.
Qed.

(** X1: the answer 5 of [assume_three] comes from its first bundle. *)
Lemma hasAttributeInAssume_sound_witness :
  ∃ pre B post,
    bundle_op_infos assume_three = pre ++ B :: post ∧
    Forall (bundleRejected assume_three (Some p) "align") pre ∧
    bundleMatches assume_three (Some p) "align" B ∧
    ∃ z, bundleArgument assume_three B = Ok z ∧ Some 5 = Some z.
Proof.
  exact (hasAttributeInAssume_sound assume_three (Some p) "align" (Some 0)
           (Some 5) true eq_refl).
Defined.

(** X2: [assume_three] has no ["nonnull"] bundle. *)
Lemma hasAttributeInAssume_no_match_witness :
  hasAttributeInAssume assume_three (Some p) "nonnull" None = Ok (false, None).
Proof.
  apply hasAttributeInAssume_no_match; [reflexivity | reflexivity | by left |].
  repeat constructor; discriminate.
Defined.

(** X3: the first ["align"] bundle of [%p] has no argument; the second one
    is not looked at. *)
Lemma hasAttributeInAssume_stops_at_match_witness :
  hasAttributeInAssume assume_bare_first (Some p) "align" (Some 0) = Fatal.
Proof.
  apply (hasAttributeInAssume_stops_at_match assume_bare_first (Some p)
           "align" 0 []
           [{| BOI_Tag := "align"; BOI_Begin := 2; BOI_End := 4 |}]
           {| BOI_Tag := "align"; BOI_Begin := 1; BOI_End := 2 |});
    [reflexivity | apply Forall_nil_2 | | reflexivity].
  split; [reflexivity|]. intros on Hon. injection Hon as <-. reflexivity.
Defined.

(** X4 *)
Lemma hasAttributeInAssume_tag_only_witness :
  ∃ b : bool,
    hasAttributeInAssume assume_two_kinds None "nonnull" None = Ok (b, None) ∧
    (b = true ↔
       Exists (λ B, BOI_Tag B = "nonnull") (bundle_op_infos assume_two_kinds)).
Proof.
  exact (hasAttributeInAssume_tag_only assume_two_kinds "nonnull"
           eq_refl eq_refl).
Defined.

(** X5: filling from [assume_three] leaves the pair of [assume_align]. *)
Lemma fillMapFromAssume_frame_witness :
  let Result : gmap (option Value * AttrKind) (gmap nat MinMax) :=
    <[(Some p, Alignment) := {[100%nat := {| Min := 8; Max := 8 |}]}]> ∅ in
  let Result' : gmap (option Value * AttrKind) (gmap nat MinMax) :=
    <[(Some p, Alignment) :=
        <[101%nat := {| Min := 2; Max := 9 |}]>
          {[100%nat := {| Min := 8; Max := 8 |}]}]> ∅ in
  lookupMinMax Result' (Some p, Alignment) assume_align
  = lookupMinMax Result (Some p, Alignment) assume_align.
Proof.
  intros Result Result'.
  assert (Hfill : fillMapFromAssume assume_three Result = Ok Result')
    by (vm_compute; reflexivity).
  assert (Hne : inst_addr assume_align ≠ inst_addr assume_three)
    by discriminate.
  exact (proj1 (fillMapFromAssume_frame assume_three Result Result' Hfill)
           (Some p, Alignment) assume_align Hne).
Defined.

(** X6 *)
Lemma fillMapFromAssume_entries_witness :
  let Result' : gmap (option Value * AttrKind) (gmap nat MinMax) :=
    <[(Some p, Alignment) := {[101%nat := {| Min := 2; Max := 9 |}]}]> ∅ in
  is_Some (lookupMinMax Result' (Some p, Alignment) assume_three).
Proof.
  intros Result'.
  assert (Hfill : fillMapFromAssume assume_three ∅ = Ok Result')
    by (vm_compute; reflexivity).
  assert (Hne : ¬ ((Some p, Alignment).1 = None
                   ∧ (Some p, Alignment).2 = None_))
    by (intros [Hp _]; discriminate Hp).
  exact (proj2 (@fillMapFromAssume_entries registry assume_three ∅ Result'
                  Hfill)
           {| BOI_Tag := "align"; BOI_Begin := 3; BOI_End := 5 |}
           (Some p, Alignment)
           (list_elem_of_further _ _ _ (list_elem_of_here _ _))
           eq_refl Hne).
Defined.

(** X7: the pair (2, 9) of [assume_three] contains the argument 5. *)
Lemma fillMapFromAssume_envelope_witness :
  let Result' : gmap (option Value * AttrKind) (gmap nat MinMax) :=
    <[(Some p, Alignment) := {[101%nat := {| Min := 2; Max := 9 |}]}]> ∅ in
  ∃ MM, lookupMinMax Result' (Some p, Alignment) assume_three = Some MM ∧
        Min MM ≤ 5 ≤ Max MM.
Proof.
  intros Result'.
  assert (Hfill : fillMapFromAssume assume_three ∅ = Ok Result')
    by (vm_compute; reflexivity).
  assert (Hne : ¬ ((Some p, Alignment).1 = None
                   ∧ (Some p, Alignment).2 = None_))
    by (intros [Hp _]; discriminate Hp).
  apply (@fillMapFromAssume_envelope registry assume_three (Some p, Alignment)
           {| BOI_Tag := "align"; BOI_Begin := 1; BOI_End := 3 |} 5 ∅ Result'
           Hfill); [|apply list_elem_of_here | reflexivity | exact Hne
                    | reflexivity].
  intros B' HB' _. revert HB'.
  apply (elem_of_three B' _ _ _
           (λ B, bundleHasArgument B ABA_Argument = true));
    reflexivity.
Defined.

(** X8 *)
Lemma fillMapFromAssume_Map_bounded_witness :
  Map_bounded
    (<[(Some p, Dereferenceable) := {[107%nat := {| Min := 5; Max := 5 |}]}]> ∅).
Proof.
  apply (@fillMapFromAssume_Map_bounded registry assume_wide ∅).
  - vm_compute. reflexivity.
  - intros Key Inner a MM HK. by rewrite lookup_empty in HK.
Defined.

(** X9 *)
Lemma fillMapFromAssume_empty_keys_witness :
  fillMapFromAssume assume_anchors ∅ = Ok ∅ ∧
  fillMapFromAssume assume_bare ∅ = Ok ∅.
Proof.
  split.
  - apply fillMapFromAssume_empty_keys; [reflexivity|].
    repeat constructor.
  - apply fillMapFromAssume_empty_keys; [reflexivity|]. constructor.
Defined.

(** X10 *)
Lemma bad_argument_fatal_witness :
  fillMapFromAssume assume_bad_argument ∅ = Fatal ∧
  getKnowledgeFromBundle assume_bad_argument
    {| BOI_Tag := "align"; BOI_Begin := 1; BOI_End := 3 |} = Fatal.
Proof.
  exact (@bad_argument_fatal registry assume_bad_argument
           {| BOI_Tag := "align"; BOI_Begin := 1; BOI_End := 3 |} ∅
           (list_elem_of_here _ _) eq_refl eq_refl).
Defined.

(** X11: the bundle of [assume_align] decodes to (Alignment, 8, %p) and is
    filed under (%p, Alignment) as (8, 8). *)
Lemma fillMapFromAssume_body_knowledge_witness :
  let B := {| BOI_Tag := "align"; BOI_Begin := 1; BOI_End := 3 |} in
  ∃ Result',
    fillMapFromAssume_body assume_align B ∅ = Ok Result' ∧
    lookupMinMax Result' (Some p, Alignment) assume_align
    = Some {| Min := 8; Max := 8 |}.
Proof.
  intros B.
  destruct (@fillMapFromAssume_body_knowledge registry assume_align B
              (@Build_RetainedKnowledge registry Alignment (Some 8) (Some p))
              ∅ eq_refl)
    as (Result' & Hbody & _ & Hnew).
  exists Result'. split; [exact Hbody|].
  apply Hnew. unfold lookupMinMax. by rewrite lookup_empty.
Defined.

(** X12 *)
Lemma hasAttributeInAssume_within_fillMapFromAssume_witness :
  let Result' : gmap (option Value * AttrKind) (gmap nat MinMax) :=
    <[(Some p, Alignment) := {[101%nat := {| Min := 2; Max := 9 |}]}]> ∅ in
  ∃ MM, lookupMinMax Result' (Some p, Alignment) assume_three = Some MM ∧
        Min MM ≤ 5 `mod` 2 ^ 32 ≤ Max MM.
Proof.
  intros Result'.
  assert (Hfill : fillMapFromAssume assume_three ∅ = Ok Result')
    by (vm_compute; reflexivity).
  apply (@hasAttributeInAssume_within_fillMapFromAssume registry assume_three
           p "align" 0 5 ∅ Result' eq_refl Hfill).
  intros B' HB' _. revert HB'.
  apply (elem_of_three B' _ _ _
           (λ B, bundleHasArgument B ABA_Argument = true));
    reflexivity.
Defined.

(** X13 *)
Lemma getKnowledgeFromBundle_slots_witness :
  getKnowledgeFromBundle assume_two_kinds
    {| BOI_Tag := "nonnull"; BOI_Begin := 3; BOI_End := 4 |}
  = Ok {| RK_AttrKind := NonNull; RK_ArgValue := None; RK_WasOn := Some p |}.
Proof.
  apply (@getKnowledgeFromBundle_slots registry assume_two_kinds
           {| BOI_Tag := "nonnull"; BOI_Begin := 3; BOI_End := 4 |}).
  - unfold BOI_wf. simpl. lia.
  - simpl. lia.
Defined.

(** X14: the operands 1 and 2 of [assume_align] belong to its bundle, the
    operand 0 to none. *)
Lemma getKnowledgeFromOperandInAssume_owner_witness :
  let B := {| BOI_Tag := "align"; BOI_Begin := 1; BOI_End := 3 |} in
  getKnowledgeFromOperandInAssume assume_align 2
  = getKnowledgeFromBundle assume_align B ∧
  getKnowledgeFromOperandInAssume assume_align 0 = Fatal.
Proof.
  intros B.
  destruct (@getKnowledgeFromOperandInAssume_owner registry assume_align
              eq_refl eq_refl) as (Hown & _ & Hcond).
  split; [|exact Hcond].
  apply (Hown B 2%nat); [apply list_elem_of_here | simpl; lia].
Defined.

(** X15 *)
Lemma use_outside_bundles_witness :
  getKnowledgeFromUse {| U_user := other_call; U_operandNo := 0 |} [Alignment]
  = Ok RK_none ∧
  getKnowledgeFromUse {| U_user := assume_align; U_operandNo := 0 |}
    [Alignment]
  = Ok RK_none.
Proof.
  split.
  - exact (proj2 (@use_outside_bundles registry
                    {| U_user := other_call; U_operandNo := 0 |} [Alignment]
                    (or_introl eq_refl))).
  - exact (proj2 (@use_outside_bundles registry
                    {| U_user := assume_align; U_operandNo := 0 |} [Alignment]
                    (or_intror (or_intror eq_refl)))).
Defined.

(** X16 *)
Lemma getKnowledgeFromUse_sound_witness :
  let RK := {| RK_AttrKind := Alignment; RK_ArgValue := Some 8;
               RK_WasOn := Some p |} in
  ∃ B, getBundleOpInfoForOperand assume_two_kinds 1 = Ok B ∧
       getKnowledgeFromBundle assume_two_kinds B = Ok RK ∧
       RK_AttrKind RK ∈ [Alignment].
Proof.
  intros RK.
  assert (Hne : RK ≠ RK_none) by discriminate.
  exact (proj2 (proj2 (@getKnowledgeFromUse_sound registry use_align [Alignment] RK
                         eq_refl Hne))).
Defined.

(** X17 *)
Lemma getKnowledgeFromUse_as_scan_witness :
  getKnowledgeForValue (λ _, [use_align]) p [Alignment] None (λ _ _ _, true)
  = getKnowledgeFromUse use_align [Alignment].
Proof.
  apply getKnowledgeFromUse_as_scan; [reflexivity|].
  intros Hin. apply list_elem_of_singleton in Hin. discriminate Hin.
Defined.

(** X18 *)
Lemma getKnowledgeForValue_sound_witness :
  let RK := {| RK_AttrKind := Alignment; RK_ArgValue := Some 8;
               RK_WasOn := Some p |} in
  ∃ Inst BOI,
    getKnowledgeFromBundle Inst BOI = Ok RK ∧
    RK_AttrKind RK ∈ [Alignment] ∧
    always_true RK Inst BOI = true ∧
    ∃ U, U ∈ uses_recent_first p ∧ U_user U = Inst ∧
         getBundleFromUse U = Ok (Some BOI).
Proof.
  intros RK.
  assert (Hne : RK ≠ RK_none) by discriminate.
  exact (@getKnowledgeForValue_sound registry uses_recent_first p [Alignment] None
           always_true RK eq_refl Hne).
Defined.


(** X20: the scan passes over the ["nonnull"] use, whose kind is not
    wanted, and returns the ["align"] fact. *)
Lemma getKnowledgeForValue_first_use_witness :
  getKnowledgeForValue uses_recent_first p [Alignment] None always_true
  = Ok {| RK_AttrKind := Alignment; RK_ArgValue := Some 8;
          RK_WasOn := Some p |}.
Proof.
  apply (@getKnowledgeForValue_first_use registry uses_recent_first p [Alignment]
           always_true [use_nonnull] [] use_align
           {| BOI_Tag := "align"; BOI_Begin := 1; BOI_End := 3 |});
    [reflexivity | | reflexivity..].
  apply Forall_cons_2; [|apply Forall_nil_2].
  right. exists {| BOI_Tag := "nonnull"; BOI_Begin := 3; BOI_End := 4 |},
    (@Build_RetainedKnowledge registry NonNull None (Some p)).
  split_and!; reflexivity.
Defined.

(** X21 *)
Lemma getKnowledgeForValue_first_entry_witness :
  getKnowledgeForValue uses_recent_first p [NonNull] (Some assumptionsFor)
    always_true
  = Ok {| RK_AttrKind := NonNull; RK_ArgValue := None; RK_WasOn := Some p |}.
Proof.
  apply (@getKnowledgeForValue_first_entry registry uses_recent_first assumptionsFor p
           [NonNull] always_true
           [{| RE_Assume := Some assume_two_kinds; RE_Index := 0 |}] []
           {| RE_Assume := Some assume_two_kinds; RE_Index := 1 |}
           assume_two_kinds
           {| BOI_Tag := "nonnull"; BOI_Begin := 3; BOI_End := 4 |});
    [reflexivity | | reflexivity | by eexists | discriminate
     | reflexivity..].
  apply Forall_cons_2; [|apply Forall_nil_2].
  right. exists assume_two_kinds,
    {| BOI_Tag := "align"; BOI_Begin := 1; BOI_End := 3 |},
    (@Build_RetainedKnowledge registry Alignment (Some 8) (Some p)).
  split_and!; [reflexivity | by eexists | discriminate | reflexivity..].
Defined.

(** X22: a placeholder entry after a null handle. *)
Lemma getKnowledgeForValue_skips_placeholders_witness :
  getKnowledgeForValue uses_recent_first p [NonNull]
    (Some (λ _, [{| RE_Assume := None; RE_Index := 0 |}]
                ++ {| RE_Assume := Some assume_two_kinds;
                      RE_Index := ExprResultIdx |} :: assumptionsFor p))
    always_true
  = getKnowledgeForValue uses_recent_first p [NonNull]
      (Some (λ _, [{| RE_Assume := None; RE_Index := 0 |}]
                  ++ assumptionsFor p)) always_true.
Proof.
  apply getKnowledgeForValue_skips_placeholders.
  right. exists assume_two_kinds. split_and!; [reflexivity | by eexists
                                             | reflexivity].
Defined.

(** X23 *)
Lemma isAssumeWithEmptyBundle_no_knowledge_witness :
  hasAttributeInAssume assume_ignore (Some p) "align" (Some 0)
  = Ok (false, Some 0).
Proof.
  apply (proj1 (isAssumeWithEmptyBundle_no_knowledge assume_ignore eq_refl));
    [discriminate | reflexivity | by right].
Defined.

End MoreExamples.
